(** * File organizer: a shallow embedding of [file_organizer.py]

    The development follows the source file top to bottom: Python strings
    and [pathlib] names first, then the category table and the classifier
    ([get_file_extension], [categorize_file]), then a model of the part of
    the filesystem the program talks to, the effectful methods
    ([create_category_folders], [organize_files], [print_summary], [main]),
    and last the object store needed to speak about the [file_extensions]
    property.  The properties come after all definitions.

    What is modelled of the platform: paths are sequences of parts, the
    filesystem is a finite map from paths to regular files and directories
    (no links), [Path.mkdir], [shutil.move] and the calls under them follow
    CPython's [pathlib] and [shutil] on a single volume, and the refusals of
    the operating system are data of the filesystem state. *)

From Stdlib Require Import ZArith NArith Ascii String Lia.
From stdpp Require Import base option list gmap sets.

Local Open Scope Z_scope.

(** ** Python strings *)

(** A Python [str] is a sequence of Unicode code points. *)
Abbreviation code_point := N (only parsing).
Abbreviation pystr := (list N) (only parsing).

(** A literal of the source, read as its sequence of code points (the
    literals of the program are all ASCII). *)
Definition str (s : string) : pystr :=
  N_of_ascii <$> list_ascii_of_string s.

Definition DOT : code_point := 46%N.

(** [s.rfind(c)]: the highest index at which [c] occurs, or [-1]. *)
Fixpoint rfind (s : pystr) (c : code_point) : Z :=
  match s with
  | [] => -1
  | x :: s' =>
      let r := rfind s' c in
      if r <? 0 then (if (x =? c)%N then 0 else -1) else r + 1
  end.

(** Unicode case mapping, per code point.  [str.lower] and [str.upper] map
    every code point through the Unicode tables and concatenate; one code
    point can become several.  The two functions below are exact on
    U+0000..U+00FF and on the other code points they list; a code point
    beyond those is returned unchanged, so they are an excerpt of the
    Unicode tables, not the whole of them. *)
Definition lower_cp (c : code_point) : pystr :=
  (if (65 <=? c) && (c <=? 90) then [c + 32]                (* A-Z *)
   else if (192 <=? c) && (c <=? 222) && negb (c =? 215) then [c + 32]
   else if c =? 304 then [105; 775]                         (* U+0130 *)
   else if c =? 7838 then [223]                             (* U+1E9E *)
   else if c =? 8490 then [107]                             (* U+212A *)
   else [c])%N.

Definition upper_cp (c : code_point) : pystr :=
  (if (97 <=? c) && (c <=? 122) then [c - 32]               (* a-z *)
   else if c =? 181 then [924]                              (* U+00B5 *)
   else if c =? 223 then [83; 83]                           (* U+00DF *)
   else if (224 <=? c) && (c <=? 254) && negb (c =? 247) then [c - 32]
   else if c =? 255 then [376]
   else if c =? 305 then [73]                               (* U+0131 *)
   else if c =? 383 then [83]                               (* U+017F *)
   else [c])%N.

Definition lower (s : pystr) : pystr := s ≫= lower_cp.
Definition upper (s : pystr) : pystr := s ≫= upper_cp.

Definition is_ascii (s : pystr) : Prop := Forall (λ c, (c < 128)%N) s.

(** ** [pathlib] *)

(** A path is the sequence of its parts below the anchor. *)
Abbreviation path := (list (list N)) (only parsing).

(** [p / child] *)
Definition joinpath (p : path) (child : pystr) : path := p ++ [child].
Infix "//" := joinpath (at level 40, left associativity).

(** [p.name]: the final part, the empty string when there is none. *)
Definition name (p : path) : pystr := List.last p [].

(** [p.parent] *)
Definition parent (p : path) : path := removelast p.

(** [p.suffix], as [pathlib] computes it in the Python versions the package
    declares (3.8 to 3.12):
<<
    name = self.name
    i = name.rfind('.')
    if 0 < i < len(name) - 1: return name[i:]
    else: return ''
>> *)
Definition suffix (p : path) : pystr :=
  let nm := name p in
  let i := rfind nm DOT in
  if (0 <? i) && (i <? Z.of_nat (length nm) - 1)
  then drop (Z.to_nat i) nm
  else [].

(** ** The organizer object and its classifier *)

(** [Dict[str, List[str]]]: insertion-ordered, keys unique. *)
Abbreviation dict := (list (list N * list (list N))) (only parsing).

Record FileOrganizer := {
  directory : path;
  _file_extensions : dict
}.

Definition FILE_EXTENSIONS : dict :=
  [ (str "Images", str <$> [".jpg"; ".jpeg"; ".png"; ".gif"; ".bmp"; ".svg"; ".webp"; ".ico"]);
    (str "Documents", str <$> [".pdf"; ".doc"; ".docx"; ".txt"; ".rtf"; ".odt"; ".xls"; ".xlsx"; ".ppt"; ".pptx"]);
    (str "Videos", str <$> [".mp4"; ".avi"; ".mkv"; ".mov"; ".wmv"; ".flv"; ".webm"; ".m4v"]);
    (str "Audio", str <$> [".mp3"; ".wav"; ".flac"; ".aac"; ".ogg"; ".m4a"; ".wma"]);
    (str "Archives", str <$> [".zip"; ".rar"; ".7z"; ".tar"; ".gz"; ".bz2"]);
    (str "Code", str <$> [".py"; ".js"; ".html"; ".css"; ".java"; ".cpp"; ".c"; ".php"; ".rb"; ".go"]);
    (str "Executables", str <$> [".exe"; ".msi"; ".deb"; ".rpm"; ".dmg"; ".app"]) ]%string.

(** [FileOrganizer.__init__] *)
Definition __init__ (dir : path) : FileOrganizer :=
  {| directory := dir; _file_extensions := FILE_EXTENSIONS |}.

Definition OTHER : pystr := str "Other".

(** [get_file_extension]: [file_path.suffix.lower()] *)
Definition get_file_extension (self : FileOrganizer) (file_path : path) : pystr :=
  lower (suffix file_path).

(** The loop of [categorize_file] over [self._file_extensions.items()]:
    the first category whose list holds the extension, ['Other'] when the
    items run out. *)
Fixpoint first_category (items : dict) (extension : pystr) : pystr :=
  match items with
  | [] => OTHER
  | (category, extensions) :: rest =>
      if bool_decide (extension ∈ extensions) then category
      else first_category rest extension
  end.

Definition categorize_file (self : FileOrganizer) (file_path : path) : pystr :=
  let extension := get_file_extension self file_path in
  first_category (_file_extensions self) extension.

(** [list(self._file_extensions.keys()) + ['Other']] *)
Definition categories (self : FileOrganizer) : list pystr :=
  (_file_extensions self).*1 ++ [OTHER].

(** [d[k]], [None] standing for [KeyError]. *)
Fixpoint dict_get {V} (d : list (list N * V)) (k : pystr) : option V :=
  match d with
  | [] => None
  | (k', v) :: rest => if bool_decide (k' = k) then Some v else dict_get rest k
  end.

(** [d[k].append(x)]: the list under [k] grows in place; [None] stands for
    the [KeyError] of the lookup. *)
Fixpoint dict_append (d : dict) (k : pystr) (x : pystr) : option dict :=
  match d with
  | [] => None
  | (k', v) :: rest =>
      if bool_decide (k' = k) then Some ((k', v ++ [x]) :: rest)
      else cons (k', v) <$> dict_append rest k x
  end.

(** ** The filesystem *)

(** What the program can observe of an entry: a regular file with its
    content, or a directory.  Links and devices are left out. *)
Inductive node :=
  | File (data : list N)
  | Dir.

(** Refusals of the operating system (permissions, locks), attached to
    entries: a [ReadOnly] entry can be read but neither renamed, removed
    nor overwritten; a [NoAccess] entry cannot be opened either.  Making a
    directory is never refused. *)
Inductive protection :=
  | ReadOnly
  | NoAccess.

Record filesystem := {
  nodes : gmap (list (list N)) node;
  protections : gmap (list (list N)) protection
}.

#[global] Instance node_eq_dec : EqDecision node.
Proof. solve_decision. Defined.
#[global] Instance protection_eq_dec : EqDecision protection.
Proof. solve_decision. Defined.

(** The anchor (the empty sequence of parts) is always a directory. *)
Definition node_at (fs : filesystem) (p : path) : option node :=
  match p with
  | [] => Some Dir
  | _ => nodes fs !! p
  end.

Definition is_dir_at (fs : filesystem) (p : path) : bool :=
  match node_at fs p with Some Dir => true | _ => false end.

Definition is_file_at (fs : filesystem) (p : path) : bool :=
  match node_at fs p with Some (File _) => true | _ => false end.

Definition exists_at (fs : filesystem) (p : path) : bool :=
  match node_at fs p with Some _ => true | None => false end.

Definition is_child (d p : path) : Prop := p ≠ [] ∧ parent p = d.

#[global] Instance is_child_dec d p : Decision (is_child d p).
Proof. unfold is_child. apply _. Defined.

(** The entries directly inside [d], in the order the filesystem lists
    them (here: the order of the underlying map; nothing below depends on
    which order it is). *)
Definition children (fs : filesystem) (d : path) : list path :=
  filter (is_child d) (map_to_list (nodes fs)).*1.

(** The exceptions the modelled calls raise; all derive from [Exception]. *)
Inductive exn :=
  | FileNotFoundError (p : path)
  | FileExistsError (p : path)
  | NotADirectoryError (p : path)
  | IsADirectoryError (p : path)
  | PermissionError (p : path)
  | ShutilError (p : path)
  | KeyError (k : pystr).

Definition set_nodes (fs : filesystem) (m : gmap (list (list N)) node) : filesystem :=
  {| nodes := m; protections := protections fs |}.

(** [os.mkdir(p)] *)
Definition os_mkdir (fs : filesystem) (p : path) : exn + filesystem :=
  match p with
  | [] => inl (FileExistsError p)
  | _ =>
      match node_at fs (parent p) with
      | None => inl (FileNotFoundError p)
      | Some (File _) => inl (NotADirectoryError p)
      | Some Dir =>
          match node_at fs p with
          | Some _ => inl (FileExistsError p)
          | None => inr (set_nodes fs (<[p := Dir]> (nodes fs)))
          end
      end
  end.

(** [Path.mkdir(exist_ok=...)] with [parents=False]:
<<
    try: os.mkdir(self, mode)
    except FileNotFoundError:
        if not parents or self.parent == self: raise
        ...
    except OSError:
        if not exist_ok or not self.is_dir(): raise
>> *)
Definition path_mkdir (exist_ok : bool) (fs : filesystem) (p : path) : exn + filesystem :=
  match os_mkdir fs p with
  | inr fs' => inr fs'
  | inl (FileNotFoundError q) => inl (FileNotFoundError q)
  | inl e => if negb exist_ok || negb (is_dir_at fs p) then inl e else inr fs
  end.

(** The checks common to writing an entry at [dst]: its parent is a
    directory, [dst] itself is no directory and is not protected. *)
Definition check_target (fs : filesystem) (dst : path) : option exn :=
  match node_at fs (parent dst) with
  | None => Some (FileNotFoundError dst)
  | Some (File _) => Some (NotADirectoryError dst)
  | Some Dir =>
      match node_at fs dst with
      | Some Dir => Some (IsADirectoryError dst)
      | _ => match protections fs !! dst with
             | Some _ => Some (PermissionError dst)
             | None => None
             end
      end
  end.

(** [os.rename(src, dst)] of a regular file; an existing file at [dst] is
    replaced. *)
Definition os_rename (fs : filesystem) (src dst : path) : exn + filesystem :=
  match node_at fs src with
  | None => inl (FileNotFoundError src)
  | Some Dir => inl (IsADirectoryError src)
  | Some (File data) =>
      match protections fs !! src with
      | Some _ => inl (PermissionError src)
      | None =>
          match check_target fs dst with
          | Some e => inl e
          | None => inr (set_nodes fs (<[dst := File data]> (delete src (nodes fs))))
          end
      end
  end.

(** [shutil.copy2(src, dst)] of a regular file. *)
Definition copy2 (fs : filesystem) (src dst : path) : exn + filesystem :=
  match node_at fs src with
  | None => inl (FileNotFoundError src)
  | Some Dir => inl (IsADirectoryError src)
  | Some (File data) =>
      match protections fs !! src with
      | Some NoAccess => inl (PermissionError src)
      | _ =>
          match check_target fs dst with
          | Some e => inl e
          | None => inr (set_nodes fs (<[dst := File data]> (nodes fs)))
          end
      end
  end.

(** [os.unlink(p)] *)
Definition os_unlink (fs : filesystem) (p : path) : exn + filesystem :=
  match node_at fs p with
  | None => inl (FileNotFoundError p)
  | Some Dir => inl (IsADirectoryError p)
  | Some (File _) =>
      match protections fs !! p with
      | Some _ => inl (PermissionError p)
      | None => inr (set_nodes fs (delete p (nodes fs)))
      end
  end.

(** [shutil.move(src, dst)] for a source that is not a directory (the
    organizer passes regular files only; moving a directory tree is not
    modelled and a directory source is answered by the error of
    [os_rename]):
<<
    real_dst = dst
    if os.path.isdir(dst):
        real_dst = os.path.join(dst, _basename(src))
        if os.path.exists(real_dst): raise Error(...)
    try: os.rename(src, real_dst)
    except OSError:
        ... copy_function(src, real_dst); os.unlink(src)
>>
    The result is the filesystem after the call together with the
    exception, if one was raised: a failed call can leave a copy behind. *)
Definition shutil_move (fs : filesystem) (src dst : path) : filesystem * option exn :=
  let real_dst := if is_dir_at fs dst then dst // name src else dst in
  if is_dir_at fs dst && exists_at fs real_dst then (fs, Some (ShutilError real_dst))
  else
    match os_rename fs src real_dst with
    | inr fs' => (fs', None)
    | inl _ =>
        match copy2 fs src real_dst with
        | inl e => (fs, Some e)
        | inr fs1 =>
            match os_unlink fs1 src with
            | inl e => (fs1, Some e)
            | inr fs2 => (fs2, None)
            end
        end
    end.

(** ** Effects: filesystem state, raised exceptions, and the calls made *)

(** The lines the program prints, by kind and with the values they show. *)
Inductive notification :=
  | CreatedFolder (category : pystr)
  | NoFilesFound
  | FoundFiles (n : nat)
  | Moved (file category : pystr)
  | WouldMove (file category : pystr)
  | ErrorMoving (file : pystr) (e : exn)
  | SummaryHeader
  | SummaryCategory (category : pystr) (n : nat)
  | SummaryFile (file : pystr)
  | SummaryTotal (n : nat)
  | FoldersCreated
  | DryRunNotice
  | ErrorLine (e : exn).

(** What a run does to the outside, in order: the filesystem calls of the
    source and the lines printed. *)
Inductive event :=
  | CallExists (p : path)
  | CallIterdir (p : path)
  | CallIsFile (p : path)
  | CallMkdir (p : path)
  | CallMove (src dst : path)
  | Print (n : notification).

Inductive outcome (A : Type) :=
  | Return (a : A)
  | Raise (e : exn).
Arguments Return {A} a.
Arguments Raise {A} e.

(** A computation takes the filesystem and gives back how it ended, the
    filesystem it left, and the events it produced. *)
Definition M (A : Type) : Type :=
  filesystem → outcome A * filesystem * list event.

#[global] Instance M_ret : MRet M := λ A a fs, (Return a, fs, []).

#[global] Instance M_bind : MBind M := λ A B k m fs,
  match m fs with
  | (Return a, fs1, t1) => let '(o, fs2, t2) := k a fs1 in (o, fs2, t1 ++ t2)
  | (Raise e, fs1, t1) => (Raise e, fs1, t1)
  end.

Definition raise {A} (e : exn) : M A := λ fs, (Raise e, fs, []).

(** [try: body / except Exception as e: handler e] *)
Definition try_except {A} (body : M A) (handler : exn → M A) : M A := λ fs,
  match body fs with
  | (Raise e, fs1, t1) => let '(o, fs2, t2) := handler e fs1 in (o, fs2, t1 ++ t2)
  | r => r
  end.

Definition print (n : notification) : M unit := λ fs, (Return (), fs, [Print n]).

(** [p.exists()] *)
Definition path_exists (p : path) : M bool := λ fs,
  (Return (exists_at fs p), fs, [CallExists p]).

(** [p.is_file()] *)
Definition is_file (p : path) : M bool := λ fs,
  (Return (is_file_at fs p), fs, [CallIsFile p]).

(** [p.iterdir()] *)
Definition iterdir (p : path) : M (list path) := λ fs,
  (match node_at fs p with
   | None => Raise (FileNotFoundError p)
   | Some (File _) => Raise (NotADirectoryError p)
   | Some Dir => Return (children fs p)
   end, fs, [CallIterdir p]).

(** [p.mkdir(exist_ok=exist_ok)] *)
Definition mkdir (p : path) (exist_ok : bool) : M unit := λ fs,
  match path_mkdir exist_ok fs p with
  | inl e => (Raise e, fs, [CallMkdir p])
  | inr fs' => (Return (), fs', [CallMkdir p])
  end.

(** [shutil.move(str(src), str(dst))] *)
Definition move (src dst : path) : M unit := λ fs,
  match shutil_move fs src dst with
  | (fs', Some e) => (Raise e, fs', [CallMove src dst])
  | (fs', None) => (Return (), fs', [CallMove src dst])
  end.

(** [d[k] = v]: replaces in place, or appends a new key. *)
Fixpoint dict_set {V} (d : list (list N * V)) (k : pystr) (v : V) : list (list N * V) :=
  match d with
  | [] => [(k, v)]
  | (k', v') :: rest =>
      if bool_decide (k' = k) then (k', v) :: rest else (k', v') :: dict_set rest k v
  end.

(** [del d[k]], [None] standing for [KeyError]. *)
Fixpoint dict_del {V} (d : list (list N * V)) (k : pystr) : option (list (list N * V)) :=
  match d with
  | [] => None
  | (k', v') :: rest =>
      if bool_decide (k' = k) then Some rest else cons (k', v') <$> dict_del rest k
  end.

(** [{category: [] for category in keys}] *)
Definition empty_lists (keys : list pystr) : dict :=
  foldl (λ d category, dict_set d category []) [] keys.

(** [moved_files[category].append(file)] as a step of a computation. *)
Definition append_to (moved_files : dict) (category file : pystr) : M dict :=
  match dict_append moved_files category file with
  | Some d => mret d
  | None => raise (KeyError category)
  end.

(** ** The methods *)

(** The loop of [create_category_folders]. *)
Fixpoint create_folders_loop (self : FileOrganizer) (cats : list pystr) : M unit :=
  match cats with
  | [] => mret ()
  | category :: rest =>
      let folder_path := directory self // category in
      mkdir folder_path true ;;
      print (CreatedFolder category) ;;
      create_folders_loop self rest
  end.

Definition create_category_folders (self : FileOrganizer) : M unit :=
  create_folders_loop self (categories self).

(** [[f for f in entries if f.is_file()]] *)
Fixpoint regular_files (entries : list path) : M (list path) :=
  match entries with
  | [] => mret []
  | f :: rest =>
      b ← is_file f;
      files ← regular_files rest;
      mret (if b : bool then f :: files else files)
  end.

(** One turn of the [for file_path in files] loop of [organize_files]; the
    result is [moved_files] after the turn. *)
Definition organize_one (self : FileOrganizer) (dry_run : bool)
    (moved_files : dict) (file_path : path) : M dict :=
  let category := categorize_file self file_path in
  let destination := directory self // category // name file_path in
  try_except
    (if negb dry_run then
       move file_path destination ;;
       d ← append_to moved_files category (name file_path);
       print (Moved (name file_path) category) ;;
       mret d
     else
       d ← append_to moved_files category (name file_path);
       print (WouldMove (name file_path) category) ;;
       mret d)
    (λ e, print (ErrorMoving (name file_path) e) ;; mret moved_files).

Fixpoint organize_loop (self : FileOrganizer) (dry_run : bool)
    (files : list path) (moved_files : dict) : M dict :=
  match files with
  | [] => mret moved_files
  | file_path :: rest =>
      d ← organize_one self dry_run moved_files file_path;
      organize_loop self dry_run rest d
  end.

Definition organize_files (self : FileOrganizer) (dry_run : bool) : M dict :=
  ex ← path_exists (directory self);
  if negb ex then raise (FileNotFoundError (directory self))
  else
    let moved_files := empty_lists (categories self) in
    entries ← iterdir (directory self);
    files ← regular_files entries;
    match files with
    | [] => print NoFilesFound ;; mret moved_files
    | _ =>
        print (FoundFiles (length files)) ;;
        (if negb dry_run then create_category_folders self else mret ()) ;;
        organize_loop self dry_run files moved_files
    end.

(** The loop of [print_summary]; [total_files] is its running count. *)
Fixpoint summary_loop (items : dict) (total_files : nat) : M nat :=
  match items with
  | [] => mret total_files
  | (category, files) :: rest =>
      match files with
      | [] => summary_loop rest total_files
      | _ =>
          print (SummaryCategory category (length files)) ;;
          foldr (λ file k, print (SummaryFile file) ;; k) (mret ()) files ;;
          summary_loop rest (total_files + length files)%nat
      end
  end.

Definition print_summary (self : FileOrganizer) (moved_files : dict) : M unit :=
  print SummaryHeader ;;
  total_files ← summary_loop moved_files 0%nat;
  print (SummaryTotal total_files).

(** The count [print_summary] reports. *)
Definition total_files (moved_files : dict) : nat :=
  sum_list (length <$> moved_files.*2).



(** ** The entry point of the package, [cli.py]

    [cli.main] drives the same class ([from .file_organizer import
    FileOrganizer]); the module it imports the class from is not among the
    sources, and the methods are taken to be those of [file_organizer.py]
    modelled above.  What they do is kept apart, in the events of a run,
    from the lines [cli.main] prints itself, whose wording is its own. *)

Inductive cli_line :=
  | CliFoldersCreated
  | CliDryRunNotice
  | CliError (e : exn)
  | CliPermissionError (e : exn)
  | CliUnexpectedError (e : exn).

Inductive cli_event :=
  | Method (ev : event)
  | CliPrint (l : cli_line).

Definition CliM (A : Type) : Type :=
  filesystem → outcome A * filesystem * list cli_event.

#[global] Instance CliM_ret : MRet CliM := λ A a fs, (Return a, fs, []).

#[global] Instance CliM_bind : MBind CliM := λ A B k m fs,
  match m fs with
  | (Return a, fs1, t1) => let '(o, fs2, t2) := k a fs1 in (o, fs2, t1 ++ t2)
  | (Raise e, fs1, t1) => (Raise e, fs1, t1)
  end.







(** ** The object store

    [self._file_extensions] is a dict object whose values are list objects;
    both are mutable and can be shared.  To speak about what a caller can
    and cannot reach through the [file_extensions] property, objects live
    in a store and are named by references. *)

Inductive pyobj :=
  | ListObj (elems : list (list N))
  | DictObj (items : list (list N * positive)).

Abbreviation ref := positive (only parsing).
Abbreviation store := (gmap positive pyobj) (only parsing).

(** A new object gets a reference not in use. *)
Definition alloc (h : store) (o : pyobj) : store * ref :=
  let l := fresh (dom h) in (<[l := o]> h, l).

Arguments alloc : simpl never.

(** Evaluating a dict display [{k1: [...], k2: [...], ...}]. *)
Fixpoint alloc_lists (h : store) (entries : dict) : store * list (pystr * ref) :=
  match entries with
  | [] => (h, [])
  | (k, v) :: rest =>
      let '(h1, l) := alloc h (ListObj v) in
      let '(h2, items) := alloc_lists h1 rest in
      (h2, (k, l) :: items)
  end.

Definition new_dict (h : store) (entries : dict) : store * ref :=
  let '(h1, items) := alloc_lists h entries in
  alloc h1 (DictObj items).

(** The organizer as an object: its table is held by reference. *)
Record FileOrganizerObj := {
  obj_directory : path;
  obj_file_extensions : ref
}.

(** [FileOrganizer(directory)] *)
Definition new_FileOrganizer (h : store) (dir : path) : store * FileOrganizerObj :=
  let '(h1, d) := new_dict h FILE_EXTENSIONS in
  (h1, {| obj_directory := dir; obj_file_extensions := d |}).

(** The items of a dict object with the lists they refer to read out;
    [None] when a reference does not lead to an object of the right kind. *)
Fixpoint read_items (h : store) (items : list (pystr * ref)) : option dict :=
  match items with
  | [] => Some []
  | (k, l) :: rest =>
      match h !! l with
      | Some (ListObj v) => cons (k, v) <$> read_items h rest
      | _ => None
      end
  end.

Definition read_dict (h : store) (d : ref) : option dict :=
  match h !! d with
  | Some (DictObj items) => read_items h items
  | _ => None
  end.

(** What the methods see of [self] in a given store. *)
Definition load (h : store) (self : FileOrganizerObj) : option FileOrganizer :=
  tbl ← read_dict h (obj_file_extensions self);
  Some {| directory := obj_directory self; _file_extensions := tbl |}.

(** The body of the [file_extensions] property,
    [{k: v.copy() for k, v in self._file_extensions.items()}]:
    every value list is copied into a new list object. *)
Fixpoint copy_items (h : store) (items : list (pystr * ref))
    : option (store * list (pystr * ref)) :=
  match items with
  | [] => Some (h, [])
  | (k, v) :: rest =>
      match h !! v with
      | Some (ListObj elems) =>
          let '(h1, v') := alloc h (ListObj elems) in
          '(h2, items') ← copy_items h1 rest;
          Some (h2, (k, v') :: items')
      | _ => None
      end
  end.

Definition file_extensions (h : store) (self : FileOrganizerObj) : option (store * ref) :=
  match h !! obj_file_extensions self with
  | Some (DictObj items) =>
      '(h1, items') ← copy_items h items;
      Some (alloc h1 (DictObj items'))
  | _ => None
  end.

(** [categorize_file] and [create_category_folders] called on the object
    in a given store. *)
Definition categorize_file_in (h : store) (self : FileOrganizerObj)
    (file_path : path) : option pystr :=
  org ← load h self; Some (categorize_file org file_path).

Definition create_category_folders_in (h : store) (self : FileOrganizerObj)
    : option (M unit) :=
  org ← load h self; Some (create_category_folders org).

(** What a caller can do with the mappings the property hands out.  The
    caller keeps the references it received in a list [held]; an action
    names a received mapping by its position there.  An action that would
    raise ([KeyError], [IndexError]) changes nothing. *)
Inductive action :=
  | Access                                              (* d = organizer.file_extensions *)
  | SetItem (n : nat) (k : pystr) (v : list pystr)      (* d[k] = [...] *)
  | SetItemFrom (n : nat) (k : pystr) (n' : nat) (k' : pystr)  (* d[k] = d'[k'] *)
  | DelItem (n : nat) (k : pystr)                       (* del d[k] *)
  | Clear (n : nat)                                     (* d.clear() *)
  | ListAppend (n : nat) (k : pystr) (x : pystr)        (* d[k].append(x) *)
  | ListSetItem (n : nat) (k : pystr) (i : nat) (x : pystr)    (* d[k][i] = x *)
  | ListClear (n : nat) (k : pystr).                    (* d[k].clear() *)

(** The items of the [n]-th mapping received. *)
Definition held_items (h : store) (held : list ref) (n : nat)
    : option (ref * list (pystr * ref)) :=
  d ← held !! n;
  match h !! d with
  | Some (DictObj items) => Some (d, items)
  | _ => None
  end.

(** The list object under key [k] of the [n]-th mapping received. *)
Definition held_list (h : store) (held : list ref) (n : nat) (k : pystr)
    : option (ref * list pystr) :=
  '(_, items) ← held_items h held n;
  l ← dict_get items k;
  match h !! l with
  | Some (ListObj elems) => Some (l, elems)
  | _ => None
  end.

Definition caller_step (self : FileOrganizerObj)
    (st : store * list ref) (a : action) : store * list ref :=
  let '(h, held) := st in
  match a with
  | Access =>
      match file_extensions h self with
      | Some (h', d) => (h', held ++ [d])
      | None => st
      end
  | SetItem n k v =>
      match held_items h held n with
      | Some (d, items) =>
          let '(h1, l) := alloc h (ListObj v) in
          (<[d := DictObj (dict_set items k l)]> h1, held)
      | None => st
      end
  | SetItemFrom n k n' k' =>
      match held_items h held n, held_list h held n' k' with
      | Some (d, items), Some (l, _) => (<[d := DictObj (dict_set items k l)]> h, held)
      | _, _ => st
      end
  | DelItem n k =>
      match held_items h held n with
      | Some (d, items) =>
          match dict_del items k with
          | Some items' => (<[d := DictObj items']> h, held)
          | None => st
          end
      | None => st
      end
  | Clear n =>
      match held_items h held n with
      | Some (d, _) => (<[d := DictObj []]> h, held)
      | None => st
      end
  | ListAppend n k x =>
      match held_list h held n k with
      | Some (l, elems) => (<[l := ListObj (elems ++ [x])]> h, held)
      | None => st
      end
  | ListSetItem n k i x =>
      match held_list h held n k with
      | Some (l, elems) =>
          if bool_decide (i < length elems)%nat
          then (<[l := ListObj (<[i := x]> elems)]> h, held)
          else st
      | None => st
      end
  | ListClear n k =>
      match held_list h held n k with
      | Some (l, _) => (<[l := ListObj []]> h, held)
      | None => st
      end
  end.

(** A caller's whole activity: the actions in order. *)
Definition caller_run (self : FileOrganizerObj) (h : store) (acts : list action)
    : store * list ref :=
  foldl (caller_step self) (h, []) acts.

(** The objects [self] owns in [h]: the dict object of its table and the
    list objects that are its values. *)
Definition owned (h : store) (self : FileOrganizerObj) : gset positive :=
  match h !! obj_file_extensions self with
  | Some (DictObj items) => {[obj_file_extensions self]} ∪ list_to_set items.*2
  | _ => ∅
  end.

(** The caller's mappings reach nothing of [own], and every object of [own]
    is in [h] what it was in [h1]. *)
Definition isolated (own : gset positive) (h1 h : store) (held : list ref) : Prop :=
  (∀ l, l ∈ own → is_Some (h1 !! l) ∧ h !! l = h1 !! l)
  ∧ (∀ r, r ∈ held →
       (r ∉ own)
       ∧ ∃ items, h !! r = Some (DictObj items) ∧ ∀ k l, (k, l) ∈ items → l ∉ own).

(** ** Notions of the specification that the program does not define *)

(** [f.upper_case_extension()] of the specification's section 8: the same
    path with the suffix of its name put in upper case (what
    [f.with_suffix(f.suffix.upper())] gives); a name without suffix is left
    as it is. *)
Definition upper_case_extension (f : path) : path :=
  match suffix f with
  | [] => f
  | sfx =>
      let stem := take (length (name f) - length sfx) (name f) in
      parent f // (stem ++ upper sfx)
  end.

(** The words of a row of a table, separated by spaces. *)
Fixpoint words_from (cur : list ascii) (s : list ascii) : list pystr :=
  match s with
  | [] => match cur with [] => [] | _ => [N_of_ascii <$> reverse cur] end
  | a :: rest =>
      if Ascii.eqb a " "%char
      then match cur with
           | [] => words_from [] rest
           | _ => (N_of_ascii <$> reverse cur) :: words_from [] rest
           end
      else words_from (a :: cur) rest
  end.

Definition words (s : string) : list pystr := words_from [] (list_ascii_of_string s).

(** The built-in table as section 6 of the specification prints it. *)
Definition TABLE_6 : dict :=
  [ (str "Images", words ".jpg .jpeg .png .gif .bmp .svg .webp .ico");
    (str "Documents", words ".pdf .doc .docx .txt .rtf .odt .xls .xlsx .ppt .pptx");
    (str "Videos", words ".mp4 .avi .mkv .mov .wmv .flv .webm .m4v");
    (str "Audio", words ".mp3 .wav .flac .aac .ogg .m4a .wma");
    (str "Archives", words ".zip .rar .7z .tar .gz .bz2");
    (str "Code", words ".py .js .html .css .java .cpp .c .php .rb .go");
    (str "Executables", words ".exe .msi .deb .rpm .dmg .app") ]%string.

(** The check that on an ASCII code point both case mappings give one
    code point, again ASCII, that only the dot gives the dot, and that
    lowering undoes raising. *)
Definition ascii_case_ok (c : code_point) : bool :=
  match upper_cp c, lower_cp c with
  | [u], [l] =>
      bool_decide (lower_cp u = [l]) && (u <? 128)%N && (l <? 128)%N
      && bool_decide (u = DOT ↔ c = DOT) && bool_decide (l = DOT ↔ c = DOT)
  | _, _ => false
  end.

(** The name [a.gıf], whose extension holds U+0131 (dotless i). *)
Definition dotless_gif : path := [[97; 46; 103; 305; 102]%N].

(** ** What the loops amount to

    Closed forms of the loops above, used to state what a run leaves
    behind. *)

(** The directory [p] is there afterwards: made if nothing was at [p]. *)
Definition ensure_dir (fs : filesystem) (p : path) : filesystem :=
  if exists_at fs p then fs else set_nodes fs (<[p := Dir]> (nodes fs)).

(** All folders of [cats] under the organizer's directory are there. *)
Definition provisioned (self : FileOrganizer) (cats : list pystr) (fs : filesystem)
    : filesystem :=
  foldl (λ fs c, ensure_dir fs (directory self // c)) fs cats.



(** The regular files directly inside [d], as [organize_files] lists them. *)
Definition files_in (fs : filesystem) (d : path) : list path :=
  filter (λ p, is_file_at fs p = true) (children fs d).

(** [moved_files] after a successful [moved_files[c].append(x)]; a missing
    key leaves it as it is. *)
Definition record (d : dict) (c x : pystr) : dict :=
  default d (dict_append d c x).

(** [moved_files] after every file of [files] was recorded. *)
Definition record_all (self : FileOrganizer) (d : dict) (files : list path) : dict :=
  foldl (λ d f, record d (categorize_file self f) (name f)) d files.


(** The events of [organize_files] up to the end of the enumeration. *)
Definition enumeration_events (fs : filesystem) (d : path) : list event :=
  [CallExists d; CallIterdir d] ++ (CallIsFile <$> children fs d).

(** The events of a dry run of [organize_files] on a directory. *)
Definition dry_run_events (self : FileOrganizer) (fs : filesystem) : list event :=
  enumeration_events fs (directory self)
  ++ match files_in fs (directory self) with
     | [] => [Print NoFilesFound]
     | f :: rest =>
         Print (FoundFiles (length (f :: rest)))
         :: ((λ f, Print (WouldMove (name f) (categorize_file self f))) <$> f :: rest)
     end.

(** Where [organize_files] sends a file. *)
Definition destination (self : FileOrganizer) (f : path) : path :=
  directory self // categorize_file self f // name f.

(** The live loop seen on the filesystem alone: every file with the
    exception its move raised, if any, and the filesystem at the end. *)
Fixpoint move_all (self : FileOrganizer) (files : list path) (fs : filesystem)
    : list (path * option exn) * filesystem :=
  match files with
  | [] => ([], fs)
  | f :: rest =>
      let '(fs1, e) := shutil_move fs f (destination self f) in
      let '(l, fs2) := move_all self rest fs1 in
      ((f, e) :: l, fs2)
  end.

(** The files whose move raised nothing. *)
Definition moved (outcomes : list (path * option exn)) : list path :=
  (filter (λ x, x.2 = None) outcomes).*1.

(** The events of the live loop. *)
Definition move_events (self : FileOrganizer) (outcomes : list (path * option exn))
    : list event :=
  outcomes ≫= λ x,
    [CallMove x.1 (destination self x.1);
     Print (match x.2 with
            | None => Moved (name x.1) (categorize_file self x.1)
            | Some e => ErrorMoving (name x.1) e
            end)].

(** The paths a move of [f] can write to. *)
Definition touched (self : FileOrganizer) (f : path) : list path :=
  [f; destination self f; destination self f // name f].



(** The events that belong to folder provisioning. *)
Definition is_provisioning (ev : event) : bool :=
  match ev with
  | CallMkdir _ | Print (CreatedFolder _) => true
  | _ => false
  end.







(** Where [shutil.move] puts [src] when asked for [dst]: inside [dst] when
    that is a directory, at [dst] otherwise. *)
Definition landing (fs : filesystem) (src dst : path) : path :=
  if is_dir_at fs dst then dst // name src else dst.




(** ** Concrete filesystems used in examples *)

(** A filesystem given by its entries, nothing protected. *)
Definition mkfs (entries : list (path * node)) : filesystem :=
  {| nodes := list_to_map entries; protections := ∅ |}.

Definition work : path := [str "tmp"; str "work"].




(** [/tmp/work] holding [image1.jpg], [document1.pdf] and [unknown1.xyz]. *)
Definition fs_three : filesystem :=
  mkfs [ ([str "tmp"], Dir); (work, Dir);
         (work // str "image1.jpg", File [1%N]);
         (work // str "document1.pdf", File [2%N]);
         (work // str "unknown1.xyz", File [3%N]) ].

(** [/tmp/work] holding [a.jpg], which the system lets nobody touch,
    [b.pdf], and [c.png], which can be read but not removed. *)
Definition fs_protected : filesystem :=
  {| nodes := list_to_map
       [ ([str "tmp"], Dir); (work, Dir);
         (work // str "a.jpg", File [1%N]);
         (work // str "b.pdf", File [2%N]);
         (work // str "c.png", File [3%N]) ];
     protections := list_to_map
       [ (work // str "a.jpg", NoAccess); (work // str "c.png", ReadOnly) ] |}.

(** * Properties *)

(** ** Strings and suffixes *)

Lemma rfind_notin s c : c ∉ s → rfind s c = -1.
Proof.
  induction s as [|x s IH]; simpl; [done|].
  intros H. apply not_elem_of_cons in H as [Hx Hs].
  rewrite (IH Hs). simpl.
  destruct (N.eqb_spec x c); congruence.
Qed.

Lemma rfind_last b t c : c ∉ t → rfind (b ++ c :: t) c = Z.of_nat (length b).
Proof.
  intros Ht. induction b as [|x b IH]; simpl.
  - rewrite (rfind_notin _ _ Ht). simpl. by rewrite N.eqb_refl.
  - rewrite IH. destruct (Z.ltb_spec (Z.of_nat (length b)) 0); lia.
Qed.

Lemma rfind_neg_notin s c : rfind s c < 0 → c ∉ s.
Proof.
  induction s as [|x s IH]; simpl; [intros _; apply not_elem_of_nil|].
  destruct (Z.ltb_spec (rfind s c) 0) as [Hneg|Hpos]; [|lia].
  destruct (N.eqb_spec x c) as [->|Hne]; [lia|].
  intros _. apply not_elem_of_cons. split; [congruence|auto].
Qed.

(** A found index splits the string at the last occurrence. *)
Lemma rfind_split s c :
  0 ≤ rfind s c →
  ∃ b t, s = b ++ (c :: t) ∧ (c ∉ t) ∧ rfind s c = Z.of_nat (length b).
Proof.
  induction s as [|x s IH]; simpl; [lia|].
  destruct (Z.ltb_spec (rfind s c) 0) as [Hneg|Hpos].
  - destruct (N.eqb_spec x c) as [->|]; [|lia].
    intros _. exists [], s. split_and!; [done| |done].
    by apply rfind_neg_notin.
  - intros _. destruct (IH Hpos) as (b & t & -> & Ht & Hr).
    exists (x :: b), t. split_and!; [done|done|]. rewrite Hr. simpl length. lia.
Qed.

Lemma name_joinpath p x : name (p // x) = x.
Proof. unfold name, joinpath. apply last_last. Qed.

(** The suffix of a name cut at its last dot: empty when the dot comes
    first or last, else the dot and what follows it. *)
Lemma suffix_at_last_dot p b t :
  name p = b ++ DOT :: t → DOT ∉ t →
  suffix p = if bool_decide (b = [] ∨ t = []) then [] else DOT :: t.
Proof.
  intros Hn Ht. unfold suffix. rewrite Hn, (rfind_last _ _ _ Ht).
  rewrite length_app. simpl length.
  case_bool_decide as Hbt.
  - destruct Hbt as [-> | ->]; simpl.
    + done.
    + destruct (Z.ltb_spec 0 (Z.of_nat (length b))); simpl; [|done].
      destruct (Z.ltb_spec (Z.of_nat (length b)) (Z.of_nat (length b + 1) - 1)); [lia|done].
  - assert (b ≠ [] ∧ t ≠ []) as [Hb Htn] by (split; intros ->; apply Hbt; auto).
    destruct b as [|x b]; [done|]. destruct t as [|y t]; [done|].
    destruct (Z.ltb_spec 0 (Z.of_nat (length (x :: b)))); simpl length in *; [|lia].
    destruct (Z.ltb_spec (Z.of_nat (S (length b))) (Z.of_nat (S (length b) + S (S (length t))) - 1)); [|lia].
    simpl andb. cbv iota. rewrite Nat2Z.id.
    change (S (length b)) with (length (x :: b)).
    by rewrite drop_app_length.
Qed.

Lemma suffix_no_dot p : DOT ∉ name p → suffix p = [].
Proof.
  intros H. unfold suffix. rewrite (rfind_notin _ _ H). done.
Qed.

(** Every name falls in one of the two cases above. *)
Lemma name_cases (nm : pystr) :
  DOT ∉ nm ∨ ∃ b t, nm = b ++ (DOT :: t) ∧ DOT ∉ t.
Proof.
  destruct (Z.ltb_spec (rfind nm DOT) 0) as [H|H].
  - left. by apply rfind_neg_notin.
  - right. destruct (rfind_split _ _ H) as (b & t & ? & ? & _). eauto.
Qed.

Lemma lower_cons c s : lower (c :: s) = lower_cp c ++ lower s.
Proof. done. Qed.

Lemma upper_cons c s : upper (c :: s) = upper_cp c ++ upper s.
Proof. done. Qed.

Lemma ascii_case_table :
  forallb ascii_case_ok (N.of_nat <$> seq 0 128) = true.
Proof. vm_compute. reflexivity. Qed.

Lemma ascii_case c : (c < 128)%N → ascii_case_ok c = true.
Proof.
  intros Hc. pose proof ascii_case_table as H.
  rewrite forallb_forall in H. apply H.
  apply list_elem_of_In, list_elem_of_fmap. exists (N.to_nat c).
  split; [lia|]. apply list_elem_of_In, in_seq. lia.
Qed.

Lemma lower_upper_ascii s : is_ascii s → lower (upper s) = lower s.
Proof.
  induction 1 as [|c s Hc _ IH]; [done|].
  rewrite upper_cons, !lower_cons.
  pose proof (ascii_case c Hc) as Hok. unfold ascii_case_ok in Hok.
  destruct (upper_cp c) as [|u [|??]]; try done.
  destruct (lower_cp c) as [|l [|??]]; try done.
  repeat (apply andb_prop in Hok as [Hok ?]).
  apply bool_decide_eq_true in Hok.
  change ([u] ++ upper s) with (u :: upper s).
  rewrite lower_cons, Hok, IH. done.
Qed.

Lemma upper_ascii_no_dot s : is_ascii s → DOT ∉ s → DOT ∉ upper s.
Proof.
  induction 1 as [|c s Hc _ IH]; [done|].
  intros Hn. apply not_elem_of_cons in Hn as [Hc' Hs].
  rewrite upper_cons.
  pose proof (ascii_case c Hc) as Hok. unfold ascii_case_ok in Hok.
  destruct (upper_cp c) as [|u [|??]]; try done.
  destruct (lower_cp c) as [|l [|??]]; try done.
  repeat (apply andb_prop in Hok as [Hok ?]).
  simpl. apply not_elem_of_cons. split; [|auto].
  match goal with H : bool_decide (u = DOT ↔ c = DOT) = true |- _ =>
    apply bool_decide_eq_true in H; intros Hu; symmetry in Hu; apply H in Hu; congruence end.
Qed.

Lemma upper_nil_inv s : is_ascii s → upper s = [] → s = [].
Proof.
  destruct 1 as [|c s Hc _]; [done|].
  rewrite upper_cons. pose proof (ascii_case c Hc) as Hok. unfold ascii_case_ok in Hok.
  destruct (upper_cp c) as [|u [|??]]; done.
Qed.

(** ** The classifier *)

Lemma first_category_in items ext : first_category items ext ∈ items.*1 ++ [OTHER].
Proof.
  induction items as [|[c exts] items IH]; simpl.
  - apply list_elem_of_here.
  - case_bool_decide; [apply list_elem_of_here|by apply list_elem_of_further].
Qed.

Lemma first_category_unlisted items ext :
  (∀ category extensions, (category, extensions) ∈ items → ext ∉ extensions) →
  first_category items ext = OTHER.
Proof.
  induction items as [|[c exts] items IH]; simpl; [done|].
  intros H. rewrite bool_decide_eq_false_2.
  - apply IH. intros ???. eapply H. by apply list_elem_of_further.
  - eapply H. apply list_elem_of_here.
Qed.

(** No extension of the built-in table stands under two categories, so
    the first match is the category it is listed under. *)
Lemma first_category_listed category extensions ext :
  (category, extensions) ∈ FILE_EXTENSIONS → ext ∈ extensions →
  first_category FILE_EXTENSIONS ext = category.
Proof.
  assert (forallb (λ '(c, exts),
            forallb (λ e, bool_decide (first_category FILE_EXTENSIONS e = c)) exts)
          FILE_EXTENSIONS = true) as H by (vm_compute; reflexivity).
  intros Hc He. rewrite forallb_forall in H.
  apply list_elem_of_In in Hc. specialize (H _ Hc). simpl in H.
  rewrite forallb_forall in H. apply list_elem_of_In in He.
  specialize (H _ He). by apply bool_decide_eq_true in H.
Qed.




(** C6, as stated, fails: upper-casing the extension of [a.gıf] gives
    [a.GIF], an image, while [a.gıf] itself falls under Other, because
    lower-casing leaves U+0131 alone and upper-casing turns it into I. *)
Lemma upper_case_extension_changes_category :
  ¬ ∀ f : path,
      categorize_file (__init__ []) f
      = categorize_file (__init__ []) (upper_case_extension f).
Proof.
  intros H. specialize (H dotless_gif). vm_compute in H. discriminate H.
Qed.

Lemma upper_case_extension_suffix f :
  is_ascii (suffix f) →
  lower (suffix (upper_case_extension f)) = lower (suffix f).
Proof.
  intros Hascii. unfold upper_case_extension.
  destruct (suffix f) as [|c0 sfx0] eqn:Hsfx; [by rewrite Hsfx|].
  destruct (name_cases (name f)) as [Hn|(b & t & Hn & Ht)].
  { by rewrite suffix_no_dot in Hsfx. }
  rewrite (suffix_at_last_dot _ _ _ Hn Ht) in Hsfx.
  case_bool_decide as Hbt; [done|].
  assert (b ≠ [] ∧ t ≠ []) as [Hb Htn] by (split; intros ->; apply Hbt; auto).
  injection Hsfx as <- <-.
  apply Forall_cons in Hascii as [_ Hascii].
  assert (take (length (name f) - length (DOT :: t)) (name f) = b) as ->.
  { rewrite Hn, length_app.
    replace (length b + length (DOT :: t) - length (DOT :: t))%nat with (length b) by lia.
    by rewrite take_app_length. }
  rewrite upper_cons. change (upper_cp DOT) with [DOT].
  rewrite (suffix_at_last_dot _ b (upper t)).
  - rewrite bool_decide_eq_false_2.
    + rewrite !lower_cons. by rewrite lower_upper_ascii.
    + intros [?|Hu]; [done|]. by apply upper_nil_inv in Hu.
  - by rewrite name_joinpath.
  - by apply upper_ascii_no_dot.
Qed.

(** C6, amended. For every path whose extension is ASCII, putting the
    extension in upper case does not change the category. *)
Theorem categorize_file_ascii_case_insensitive (dir f : path) :
  is_ascii (suffix f) →
  categorize_file (__init__ dir) f
  = categorize_file (__init__ dir) (upper_case_extension f).
Proof.
  intros H. unfold categorize_file, get_file_extension.
  by rewrite upper_case_extension_suffix.
Qed.

Lemma categorize_file_ascii_case_insensitive_witness :
  is_ascii (suffix [str "photo.jpg"])
  ∧ upper_case_extension [str "photo.jpg"] = [str "photo.JPG"]
  ∧ categorize_file (__init__ []) [str "photo.jpg"]
    = categorize_file (__init__ []) (upper_case_extension [str "photo.jpg"]).
Proof.
  assert (is_ascii (suffix [str "photo.jpg"])) as H.
  { vm_compute. repeat constructor. }
  split; [exact H|]. split; [vm_compute; reflexivity|].
  apply (categorize_file_ascii_case_insensitive [] [str "photo.jpg"] H).
Defined.

(** ** Running computations *)

Lemma bind_run {A B} (m : M A) (k : A → M B) fs :
  (m ≫= k) fs =
    match m fs with
    | (Return a, fs1, t1) => let '(o, fs2, t2) := k a fs1 in (o, fs2, t1 ++ t2)
    | (Raise e, fs1, t1) => (Raise e, fs1, t1)
    end.
Proof. done. Qed.

Lemma bind_return {A B} (m : M A) (k : A → M B) fs a fs1 t1 :
  m fs = (Return a, fs1, t1) →
  (m ≫= k) fs = (let '(o, fs2, t2) := k a fs1 in (o, fs2, t1 ++ t2)).
Proof. intros H. by rewrite bind_run, H. Qed.

Lemma bind_raise {A B} (m : M A) (k : A → M B) fs e fs1 t1 :
  m fs = (Raise e, fs1, t1) → (m ≫= k) fs = (Raise e, fs1, t1).
Proof. intros H. by rewrite bind_run, H. Qed.

(** ** Paths *)

Lemma joinpath_not_nil (d : path) c : d // c ≠ [].
Proof. unfold joinpath. by destruct d. Qed.

Lemma parent_joinpath (d : path) c : parent (d // c) = d.
Proof. apply removelast_last. Qed.


Lemma node_at_nodes fs (p : path) : p ≠ [] → node_at fs p = nodes fs !! p.
Proof. by destruct p. Qed.

Lemma node_at_set_insert fs (p q : path) n :
  p ≠ [] →
  node_at (set_nodes fs (<[p := n]> (nodes fs))) q
  = if decide (p = q) then Some n else node_at fs q.
Proof.
  intros Hp. destruct q as [|x q].
  - simpl. by rewrite decide_False.
  - simpl. apply lookup_insert.
Qed.

(** ** Folder provisioning *)

Lemma node_at_ensure_dir fs (p q : path) :
  p ≠ [] →
  node_at (ensure_dir fs p) q
  = if decide (p = q) then Some (default Dir (node_at fs p)) else node_at fs q.
Proof.
  intros Hp. unfold ensure_dir, exists_at.
  destruct (node_at fs p) as [n|] eqn:E.
  - case_decide; [by subst|done].
  - by rewrite node_at_set_insert.
Qed.

Lemma protections_ensure_dir fs p : protections (ensure_dir fs p) = protections fs.
Proof. unfold ensure_dir. by destruct (exists_at fs p). Qed.









Lemma protections_provisioned self cats fs :
  protections (provisioned self cats fs) = protections fs.
Proof.
  unfold provisioned. revert fs. induction cats as [|c cats IH]; intros fs; [done|].
  simpl. by rewrite IH, protections_ensure_dir.
Qed.

(** What was there stays as it was. *)
Lemma provisioned_keeps self cats fs (q : path) n :
  node_at fs q = Some n → node_at (provisioned self cats fs) q = Some n.
Proof.
  unfold provisioned. revert fs. induction cats as [|c cats IH]; intros fs H; [done|].
  simpl. apply IH. rewrite node_at_ensure_dir by apply joinpath_not_nil.
  case_decide; [subst; by rewrite H|done].
Qed.


(** Nothing but folders asked for is new. *)
Lemma provisioned_new self cats fs (q : path) n :
  node_at (provisioned self cats fs) q = Some n →
  node_at fs q = Some n
  ∨ (n = Dir ∧ node_at fs q = None ∧ ∃ c, c ∈ cats ∧ q = directory self // c).
Proof.
  unfold provisioned. revert fs. induction cats as [|c cats IH]; intros fs H; [by left|].
  simpl in H. apply IH in H as [H|(-> & H & c' & Hc' & ->)].
  - rewrite node_at_ensure_dir in H by apply joinpath_not_nil.
    case_decide as Hq; [|by left]. subst q.
    destruct (node_at fs (directory self // c)) as [m|] eqn:E; [by left|].
    right. simpl in H. injection H as <-. split_and!; [done|done|].
    exists c. split; [apply list_elem_of_here|done].
  - rewrite node_at_ensure_dir in H by apply joinpath_not_nil.
    case_decide; [done|]. right. split_and!; [done|done|].
    exists c'. split; [by apply list_elem_of_further|done].
Qed.












(** ** Enumeration *)

Lemma elem_of_children fs (d p : path) :
  p ∈ children fs d ↔ is_child d p ∧ is_Some (nodes fs !! p).
Proof.
  unfold children. rewrite list_elem_of_filter, list_elem_of_fmap.
  split.
  - intros [Hc ([q n] & -> & Hin)]. split; [done|].
    apply elem_of_map_to_list in Hin. simpl. eauto.
  - intros [Hc [n Hn]]. split; [done|]. exists (p, n). split; [done|].
    by apply elem_of_map_to_list.
Qed.


Lemma elem_of_files_in fs (d p : path) :
  p ∈ files_in fs d ↔ is_child d p ∧ is_file_at fs p = true.
Proof.
  unfold files_in. rewrite list_elem_of_filter, elem_of_children.
  split; [by intros (? & ? & ?)|]. intros [Hc Hf]. split_and!; [done..|].
  unfold is_file_at in Hf. destruct Hc as [Hne _].
  rewrite node_at_nodes in Hf by done. by destruct (nodes fs !! p).
Qed.

Lemma regular_files_run entries fs :
  regular_files entries fs
  = (Return (filter (λ p, is_file_at fs p = true) entries), fs, CallIsFile <$> entries).
Proof.
  induction entries as [|p entries IH]; [done|].
  simpl regular_files. unfold is_file at 1. rewrite bind_run.
  rewrite bind_run, IH. simpl. rewrite app_nil_r.
  rewrite filter_cons. destruct (is_file_at fs p); by case_decide.
Qed.

(** ** The result dictionary *)

Lemma dict_append_keys d k x d' : dict_append d k x = Some d' → d'.*1 = d.*1.
Proof.
  revert d'. induction d as [|[k' v] d IH]; intros d'; simpl; [done|].
  case_bool_decide.
  - by intros [= <-].
  - destruct (dict_append d k x) as [d1|]; [|done]. simpl.
    intros [= <-]. simpl. f_equal. by apply IH.
Qed.

Lemma dict_append_is_Some d k x : k ∈ d.*1 → is_Some (dict_append d k x).
Proof.
  induction d as [|[k' v] d IH]; simpl; [by intros ?%elem_of_nil|].
  intros Hk. case_bool_decide; [eauto|].
  apply elem_of_cons in Hk as [->|Hk]; [done|].
  destruct (IH Hk) as [d' ->]. simpl. eauto.
Qed.


Lemma record_keys d c x : (record d c x).*1 = d.*1.
Proof.
  unfold record. destruct (dict_append d c x) as [d'|] eqn:E; [|done].
  by apply dict_append_keys in E.
Qed.


Lemma append_to_run d c x fs :
  c ∈ d.*1 → append_to d c x fs = (Return (record d c x), fs, []).
Proof.
  intros Hc. unfold append_to, record.
  by destruct (dict_append_is_Some d c x Hc) as [d' ->].
Qed.

Lemma categorize_file_in_categories self f : categorize_file self f ∈ categories self.
Proof. apply first_category_in. Qed.




Lemma empty_lists_keys dir :
  (empty_lists (categories (__init__ dir))).*1 = categories (__init__ dir).
Proof. reflexivity. Qed.


(** ** [organize_files] *)

Lemma organize_files_missing self dry_run fs :
  node_at fs (directory self) = None →
  organize_files self dry_run fs
  = (Raise (FileNotFoundError (directory self)), fs, [CallExists (directory self)]).
Proof.
  intros H. unfold organize_files, path_exists, exists_at. rewrite bind_run, H. done.
Qed.

Lemma organize_files_not_a_directory self dry_run fs data :
  node_at fs (directory self) = Some (File data) →
  organize_files self dry_run fs
  = (Raise (NotADirectoryError (directory self)), fs,
     [CallExists (directory self); CallIterdir (directory self)]).
Proof.
  intros H. unfold organize_files, path_exists, exists_at, iterdir.
  rewrite bind_run, H. cbn [negb]. cbv beta iota. rewrite bind_run, H. done.
Qed.

(** On a directory: the enumeration, then the early return or the rest. *)
Lemma organize_files_directory self dry_run fs :
  is_dir_at fs (directory self) = true →
  organize_files self dry_run fs
  = match files_in fs (directory self) with
    | [] => (Return (empty_lists (categories self)), fs,
             enumeration_events fs (directory self) ++ [Print NoFilesFound])
    | f :: rest =>
        let '(o, fs2, t2) :=
          ((if negb dry_run then create_category_folders self else mret ()) ≫= λ _,
           organize_loop self dry_run (f :: rest) (empty_lists (categories self))) fs in
        (o, fs2,
         enumeration_events fs (directory self)
         ++ Print (FoundFiles (length (f :: rest))) :: t2)
    end.
Proof.
  unfold is_dir_at. intros H.
  destruct (node_at fs (directory self)) as [[]|] eqn:E; try done.
  unfold organize_files, path_exists, exists_at, iterdir, enumeration_events.
  rewrite bind_run, E. cbn [negb]. cbv beta iota. rewrite bind_run, E.
  rewrite bind_run, regular_files_run. fold (files_in fs (directory self)).
  destruct (files_in fs (directory self)) as [|f files].
  - rewrite bind_run. simpl. by rewrite <- ?app_assoc.
  - rewrite (bind_run (print _)). unfold print at 1.
    match goal with |- context [@mbind M ?i ?A ?B ?k ?m fs] =>
      destruct (@mbind M i A B k m fs) as [[o fs2] t2] end.
    simpl. by rewrite <- ?app_assoc.
Qed.

Lemma organize_one_dry_run self d f fs :
  categories self ⊆ d.*1 →
  organize_one self true d f fs
  = (Return (record d (categorize_file self f) (name f)), fs,
     [Print (WouldMove (name f) (categorize_file self f))]).
Proof.
  intros Hk. unfold organize_one, try_except. cbn [negb]. cbv beta iota.
  rewrite bind_run, append_to_run by apply Hk, categorize_file_in_categories.
  done.
Qed.

Lemma organize_loop_dry_run self files d fs :
  categories self ⊆ d.*1 →
  organize_loop self true files d fs
  = (Return (record_all self d files), fs,
     (λ f, Print (WouldMove (name f) (categorize_file self f))) <$> files).
Proof.
  revert d. induction files as [|f files IH]; intros d Hk; [done|].
  simpl organize_loop. rewrite bind_run, organize_one_dry_run by done.
  rewrite IH by (by rewrite record_keys). done.
Qed.






Lemma organize_files_dry self fs :
  is_dir_at fs (directory self) = true →
  categories self ⊆ (empty_lists (categories self)).*1 →
  organize_files self true fs
  = (Return (record_all self (empty_lists (categories self))
               (files_in fs (directory self))),
     fs, dry_run_events self fs).
Proof.
  intros Hd Hk. rewrite organize_files_directory by done. unfold dry_run_events.
  destruct (files_in fs (directory self)) as [|f rest]; [done|].
  rewrite bind_run. cbn [negb]. cbv beta iota. unfold mret at 1, M_ret at 1.
  by rewrite organize_loop_dry_run.
Qed.










(** ** Moving *)

Lemma node_at_set_nodes fs m (q : path) :
  node_at (set_nodes fs m) q = match q with [] => Some Dir | _ => m !! q end.
Proof. by destruct q. Qed.

Lemma check_target_not_nil fs (dst : path) : check_target fs dst = None → dst ≠ [].
Proof. intros H ->. done. Qed.

(** How a call of [shutil_move] can end: nothing changed and an exception
    raised; a copy left at the destination and an exception raised; or the
    file taken from its place and put at the destination. *)
Lemma shutil_move_cases fs (src dst : path) fs' oe :
  shutil_move fs src dst = (fs', oe) →
  ∃ real_dst : path,
    (real_dst = dst ∨ real_dst = dst // name src)
    ∧ ((is_Some oe ∧ fs' = fs)
       ∨ (∃ data, node_at fs src = Some (File data) ∧ real_dst ≠ [] ∧ is_Some oe
            ∧ fs' = set_nodes fs (<[real_dst := File data]> (nodes fs)))
       ∨ (∃ data, node_at fs src = Some (File data) ∧ src ≠ [] ∧ real_dst ≠ []
            ∧ oe = None
            ∧ fs' = set_nodes fs (<[real_dst := File data]> (delete src (nodes fs))))).
Proof.
  unfold shutil_move.
  set (real_dst := if is_dir_at fs dst then dst // name src else dst).
  intros H. exists real_dst. split.
  { unfold real_dst. destruct (is_dir_at fs dst); auto. }
  destruct (is_dir_at fs dst && exists_at fs real_dst).
  { injection H as <- <-. left. eauto. }
  unfold os_rename, copy2, os_unlink in H.
  destruct (node_at fs src) as [[data|]|] eqn:Hsrc.
  - assert (src ≠ []) as Hne by (by intros ->).
    destruct (protections fs !! src) as [[]|] eqn:Hprot.
    + (* read-only: the copy can succeed, the unlink cannot *)
      destruct (check_target fs real_dst) eqn:Hct.
      * injection H as <- <-. left. eauto.
      * rewrite node_at_set_nodes in H. destruct src as [|x src']; [done|].
        simpl in H. rewrite Hprot in H.
        pose proof (check_target_not_nil _ _ Hct) as Hrd.
        destruct (decide (real_dst = x :: src')) as [->|Hd].
        -- rewrite lookup_insert_eq in H. injection H as <- <-.
           right. left. exists data. eauto.
        -- rewrite lookup_insert_ne in H by done.
           simpl in Hsrc. rewrite Hsrc in H. injection H as <- <-.
           right. left. exists data. eauto.
    + injection H as <- <-. left. eauto.
    + destruct (check_target fs real_dst) eqn:Hct.
      * injection H as <- <-. left. eauto.
      * injection H as <- <-. right. right. exists data.
        pose proof (check_target_not_nil _ _ Hct). eauto 7.
  - injection H as <- <-. left. eauto.
  - injection H as <- <-. left. eauto.
Qed.

(** A move writes nowhere but at its source and its destination. *)
Lemma shutil_move_frame fs (src dst : path) fs' oe (q : path) :
  shutil_move fs src dst = (fs', oe) →
  q ≠ src → q ≠ dst → q ≠ dst // name src →
  node_at fs' q = node_at fs q.
Proof.
  intros H Hs Hd Hdn.
  destruct (shutil_move_cases _ _ _ _ _ H) as (rd & Hrd & Hcases).
  assert (q ≠ rd) as Hq by (destruct Hrd as [->| ->]; done).
  destruct Hcases as [[_ ->]|[(data & _ & Hne & _ & ->)|(data & _ & _ & Hne & _ & ->)]].
  - done.
  - rewrite node_at_set_nodes. destruct q; [done|]. by rewrite lookup_insert_ne.
  - rewrite node_at_set_nodes. destruct q; [done|].
    rewrite lookup_insert_ne by done. by rewrite lookup_delete_ne.
Qed.

Lemma shutil_move_protections fs (src dst : path) fs' oe :
  shutil_move fs src dst = (fs', oe) → protections fs' = protections fs.
Proof.
  intros H. destruct (shutil_move_cases _ _ _ _ _ H) as (rd & _ & Hcases).
  by destruct Hcases as [[_ ->]|[(data & _ & _ & _ & ->)|(data & _ & _ & _ & _ & ->)]].
Qed.



(** ** The live loop *)

Lemma organize_one_live self d f fs :
  categories self ⊆ d.*1 →
  organize_one self false d f fs
  = (Return (match (shutil_move fs f (destination self f)).2 with
             | None => record d (categorize_file self f) (name f)
             | Some _ => d
             end),
     (shutil_move fs f (destination self f)).1,
     move_events self [(f, (shutil_move fs f (destination self f)).2)]).
Proof.
  intros Hk. unfold organize_one, try_except, move. cbn [negb]. cbv beta iota.
  rewrite bind_run. fold (destination self f).
  destruct (shutil_move fs f (destination self f)) as [fs1 [e|]]; [done|].
  rewrite bind_run, append_to_run by apply Hk, categorize_file_in_categories.
  done.
Qed.

Lemma moved_cons_None f l : moved ((f, None) :: l) = f :: moved l.
Proof. unfold moved. rewrite filter_cons. by rewrite decide_True. Qed.

Lemma moved_cons_Some f e l : moved ((f, Some e) :: l) = moved l.
Proof. unfold moved. rewrite filter_cons. by rewrite decide_False. Qed.

Lemma move_all_cons self f rest fs :
  move_all self (f :: rest) fs
  = ((f, (shutil_move fs f (destination self f)).2)
       :: (move_all self rest (shutil_move fs f (destination self f)).1).1,
     (move_all self rest (shutil_move fs f (destination self f)).1).2).
Proof.
  simpl. destruct (shutil_move fs f (destination self f)) as [fs1 e]. simpl.
  by destruct (move_all self rest fs1).
Qed.

Lemma organize_loop_live self files d fs :
  categories self ⊆ d.*1 →
  organize_loop self false files d fs
  = (Return (record_all self d (moved (move_all self files fs).1)),
     (move_all self files fs).2,
     move_events self (move_all self files fs).1).
Proof.
  revert d fs. induction files as [|f files IH]; intros d fs Hk; [done|].
  simpl organize_loop. rewrite bind_run, organize_one_live by done.
  rewrite move_all_cons. cbn [fst snd].
  destruct (shutil_move fs f (destination self f)) as [fs1 [e|]]; cbn [fst snd].
  - rewrite IH by done. by rewrite moved_cons_Some.
  - rewrite IH by (by rewrite record_keys). by rewrite moved_cons_None.
Qed.


Lemma move_all_protections self files fs :
  protections (move_all self files fs).2 = protections fs.
Proof.
  revert fs. induction files as [|f files IH]; intros fs; [done|].
  rewrite move_all_cons. cbn [fst snd]. rewrite IH.
  destruct (shutil_move fs f (destination self f)) as [fs1 e] eqn:E.
  by apply shutil_move_protections in E.
Qed.

Lemma is_child_eq (d p : path) : is_child d p → p = d // name p.
Proof.
  intros [Hne <-]. unfold joinpath, name, parent. by apply app_removelast_last.
Qed.




(** What no move of the loop can write to stays as it was. *)
Lemma move_all_frame self files fs (q : path) :
  (∀ g, g ∈ files → q ∉ touched self g) →
  node_at (move_all self files fs).2 q = node_at fs q.
Proof.
  revert fs. induction files as [|f files IH]; intros fs Hq; [done|].
  rewrite move_all_cons. cbn [fst snd].
  rewrite IH by (intros g Hg; by apply Hq, list_elem_of_further).
  destruct (shutil_move fs f (destination self f)) as [fs1 e] eqn:E. cbn [fst].
  specialize (Hq f (list_elem_of_here _ _)). unfold touched in Hq.
  apply (shutil_move_frame _ _ _ _ _ _ E);
    intros ->; apply Hq; repeat constructor.
Qed.













(** The run on [fs_protected], computed: [b.pdf] is moved and recorded;
    [a.jpg], which cannot be opened, and [c.png], which cannot be removed,
    are reported and stay where they were, the latter with a copy left in
    [Images] by the fallback of [shutil.move]. *)
Example protected_run :
  let '(o, fs', tr) := organize_files (__init__ work) false fs_protected in
  o = Return [ (str "Images", []); (str "Documents", [str "b.pdf"]);
               (str "Videos", []); (str "Audio", []); (str "Archives", []);
               (str "Code", []); (str "Executables", []); (str "Other", []) ]
  ∧ node_at fs' (work // str "a.jpg") = Some (File [1%N])
  ∧ node_at fs' (work // str "c.png") = Some (File [3%N])
  ∧ node_at fs' (work // str "Images" // str "c.png") = Some (File [3%N])
  ∧ node_at fs' (work // str "Images" // str "a.jpg") = None
  ∧ node_at fs' (work // str "b.pdf") = None
  ∧ node_at fs' (work // str "Documents" // str "b.pdf") = Some (File [2%N])
  ∧ Print (ErrorMoving (str "a.jpg") (PermissionError (work // str "a.jpg"))) ∈ tr
  ∧ Print (ErrorMoving (str "c.png") (PermissionError (work // str "c.png"))) ∈ tr.
Proof.
  vm_compute. split_and!; try reflexivity; repeat constructor.
Qed.

(** ** The table and the three-file scenario *)

Lemma table_is_table_6 : FILE_EXTENSIONS = TABLE_6.
Proof. vm_compute. reflexivity. Qed.

(** C8. The built-in table is the table of section 6; a file whose
    extension is listed under a category gets that category, a file whose
    extension is listed nowhere gets Other ([.jpg] is an image, [.pdf] a
    document).  On the directory holding [image1.jpg], [document1.pdf] and
    [unknown1.xyz], a run, live or dry, returns each name under Images,
    Documents and Other and nothing under the other five categories, the
    total is 3, and the live run leaves the files at
    [Images/image1.jpg], [Documents/document1.pdf], [Other/unknown1.xyz]. *)
Theorem classification_follows_table :
  FILE_EXTENSIONS = TABLE_6
  ∧ (∀ dir f category extensions,
       (category, extensions) ∈ TABLE_6 →
       get_file_extension (__init__ dir) f ∈ extensions →
       categorize_file (__init__ dir) f = category)
  ∧ (∀ dir f,
       (∀ category extensions,
          (category, extensions) ∈ TABLE_6 →
          get_file_extension (__init__ dir) f ∉ extensions) →
       categorize_file (__init__ dir) f = OTHER)
  ∧ categorize_file (__init__ work) (work // str "image1.jpg") = str "Images"
  ∧ categorize_file (__init__ work) (work // str "document1.pdf") = str "Documents"
  ∧ categorize_file (__init__ work) (work // str "unknown1.xyz") = str "Other"
  ∧ (∀ dry_run,
       let result := [ (str "Images", [str "image1.jpg"]);
                       (str "Documents", [str "document1.pdf"]);
                       (str "Videos", []); (str "Audio", []); (str "Archives", []);
                       (str "Code", []); (str "Executables", []);
                       (str "Other", [str "unknown1.xyz"]) ] in
       (organize_files (__init__ work) dry_run fs_three).1.1 = Return result
       ∧ total_files result = 3%nat
       ∧ (print_summary (__init__ work) result fs_three).2
         = [ Print SummaryHeader;
             Print (SummaryCategory (str "Images") 1); Print (SummaryFile (str "image1.jpg"));
             Print (SummaryCategory (str "Documents") 1);
             Print (SummaryFile (str "document1.pdf"));
             Print (SummaryCategory (str "Other") 1);
             Print (SummaryFile (str "unknown1.xyz"));
             Print (SummaryTotal 3) ])
  ∧ (let fs' := (organize_files (__init__ work) false fs_three).1.2 in
     node_at fs' (work // str "Images" // str "image1.jpg") = Some (File [1%N])
     ∧ node_at fs' (work // str "Documents" // str "document1.pdf") = Some (File [2%N])
     ∧ node_at fs' (work // str "Other" // str "unknown1.xyz") = Some (File [3%N])
     ∧ files_in fs' work = []).
Proof.
  split_and!.
  - apply table_is_table_6.
  - intros dir f category extensions Hc He. rewrite <- table_is_table_6 in Hc.
    by apply (first_category_listed category extensions).
  - intros dir f H. apply first_category_unlisted.
    intros category extensions Hc. apply (H category). by rewrite <- table_is_table_6.
  - vm_compute. reflexivity.
  - vm_compute. reflexivity.
  - vm_compute. reflexivity.
  - intros [|]; vm_compute; split_and!; reflexivity.
  - vm_compute. split_and!; reflexivity.
Qed.

(** ** The summary and [main] *)






(** ** The object store and the [file_extensions] property *)

Lemma alloc_fresh (h : gmap positive pyobj) o :
  h !! (alloc h o).2 = None ∧ (alloc h o).1 = <[(alloc h o).2 := o]> h.
Proof.
  unfold alloc. simpl. split; [|done].
  apply not_elem_of_dom, is_fresh.
Qed.

Lemma alloc_subseteq (h : gmap positive pyobj) o : h ⊆ (alloc h o).1.
Proof.
  destruct (alloc_fresh h o) as [Hf ->]. by apply insert_subseteq.
Qed.

Lemma alloc_lookup (h : gmap positive pyobj) o : (alloc h o).1 !! (alloc h o).2 = Some o.
Proof. destruct (alloc_fresh h o) as [_ ->]. apply lookup_insert_eq. Qed.

Opaque alloc.

Lemma read_items_weaken (h h' : gmap positive pyobj) items entries :
  h ⊆ h' → read_items h items = Some entries → read_items h' items = Some entries.
Proof.
  intros Hsub. revert entries. induction items as [|[k l] items IH]; intros entries; [done|].
  simpl. destruct (h !! l) as [[v|]|] eqn:E; try done.
  rewrite (lookup_weaken _ _ _ _ E Hsub).
  destruct (read_items h items) as [e|]; [|done]. simpl.
  intros [= <-]. by rewrite (IH e).
Qed.

Lemma alloc_lists_cons (h : gmap positive pyobj) k v entries :
  alloc_lists h ((k, v) :: entries)
  = ((alloc_lists (alloc h (ListObj v)).1 entries).1,
     (k, (alloc h (ListObj v)).2) :: (alloc_lists (alloc h (ListObj v)).1 entries).2).
Proof.
  cbn [alloc_lists]. destruct (alloc h (ListObj v)) as [h1 l]. cbn [fst snd].
  by destruct (alloc_lists h1 entries).
Qed.

Lemma alloc_lists_spec (h : gmap positive pyobj) entries :
  h ⊆ (alloc_lists h entries).1
  ∧ read_items (alloc_lists h entries).1 (alloc_lists h entries).2 = Some entries
  ∧ ∀ k l, (k, l) ∈ (alloc_lists h entries).2 →
      h !! l = None ∧ is_Some ((alloc_lists h entries).1 !! l).
Proof.
  revert h. induction entries as [|[k v] entries IH]; intros h.
  { simpl. split_and!; [done|done|]. by intros ?? ?%elem_of_nil. }
  rewrite alloc_lists_cons. cbn [fst snd].
  pose proof (alloc_subseteq h (ListObj v)) as Hsub1.
  pose proof (alloc_lookup h (ListObj v)) as Hl.
  destruct (alloc_fresh h (ListObj v)) as [Hfresh _].
  destruct (alloc h (ListObj v)) as [h1 l]. cbn [fst snd] in *.
  destruct (IH h1) as (Hsub2 & Hread & Hrefs).
  destruct (alloc_lists h1 entries) as [h2 items]. cbn [fst snd] in *.
  split_and!.
  - by trans h1.
  - cbn [read_items]. rewrite (lookup_weaken _ _ _ _ Hl Hsub2). by rewrite Hread.
  - intros k' l' [[= -> ->]|Hin]%elem_of_cons.
    + split; [done|]. rewrite (lookup_weaken _ _ _ _ Hl Hsub2). eauto.
    + destruct (Hrefs _ _ Hin) as [Hn Hs]. split; [|done].
      destruct (h !! l') eqn:E; [|done].
      by rewrite (lookup_weaken _ _ _ _ E Hsub1) in Hn.
Qed.

Lemma new_dict_spec (h : gmap positive pyobj) entries :
  let h1 := (new_dict h entries).1 in
  let d := (new_dict h entries).2 in
  h ⊆ h1 ∧ h !! d = None
  ∧ read_dict h1 d = Some entries
  ∧ ∃ items, h1 !! d = Some (DictObj items)
      ∧ ∀ k l, (k, l) ∈ items → h !! l = None ∧ is_Some (h1 !! l) ∧ l ≠ d.
Proof.
  unfold new_dict.
  destruct (alloc_lists_spec h entries) as (Hsub & Hread & Hrefs).
  destruct (alloc_lists h entries) as [h2 items]. simpl in *.
  pose proof (alloc_subseteq h2 (DictObj items)) as Hsub'.
  pose proof (alloc_lookup h2 (DictObj items)) as Hl.
  destruct (alloc_fresh h2 (DictObj items)) as [Hfresh _].
  destruct (alloc h2 (DictObj items)) as [h3 d]. simpl in *.
  split_and!.
  - by trans h2.
  - destruct (h !! d) eqn:E; [|done]. by rewrite (lookup_weaken _ _ _ _ E Hsub) in Hfresh.
  - unfold read_dict. rewrite Hl. by apply (read_items_weaken h2).
  - exists items. split; [done|]. intros k l Hin.
    destruct (Hrefs _ _ Hin) as [Hn [o Ho]]. split_and!; [done| |].
    + rewrite (lookup_weaken _ _ _ _ Ho Hsub'). eauto.
    + intros ->. by rewrite Hfresh in Ho.
Qed.

(** Copying the items gives new list objects with the same contents. *)
Lemma copy_items_spec (h : gmap positive pyobj) items entries :
  read_items h items = Some entries →
  ∃ h' items',
    copy_items h items = Some (h', items')
    ∧ h ⊆ h'
    ∧ read_items h' items' = Some entries
    ∧ ∀ k l, (k, l) ∈ items' → h !! l = None.
Proof.
  revert h entries. induction items as [|[k v] items IH]; intros h entries.
  { simpl. intros [= <-]. exists h, []. split_and!; try done.
    by intros ?? ?%elem_of_nil. }
  simpl. destruct (h !! v) as [[elems|]|] eqn:Ev; try done.
  destruct (read_items h items) as [e|] eqn:Hr; [|done]. simpl. intros [= <-].
  pose proof (alloc_subseteq h (ListObj elems)) as Hsub1.
  pose proof (alloc_lookup h (ListObj elems)) as Hl.
  destruct (alloc_fresh h (ListObj elems)) as [Hfresh _].
  destruct (alloc h (ListObj elems)) as [h1 v']. simpl in *.
  destruct (IH h1 e (read_items_weaken _ _ _ _ Hsub1 Hr))
    as (h2 & items' & -> & Hsub2 & Hread & Hrefs).
  simpl. exists h2, ((k, v') :: items'). split_and!.
  - done.
  - by trans h1.
  - simpl. rewrite (lookup_weaken _ _ _ _ Hl Hsub2). by rewrite Hread.
  - intros k' l' [[= -> ->]|Hin]%elem_of_cons; [done|].
    pose proof (Hrefs _ _ Hin) as Hn.
    destruct (h !! l') eqn:E; [|done].
    by rewrite (lookup_weaken _ _ _ _ E Hsub1) in Hn.
Qed.

(** The property returns a new dict object over new list objects, equal in
    content to the table read through [self]. *)
Lemma file_extensions_spec (h : gmap positive pyobj) self entries :
  read_dict h (obj_file_extensions self) = Some entries →
  ∃ h' d items',
    file_extensions h self = Some (h', d)
    ∧ h ⊆ h' ∧ h !! d = None
    ∧ h' !! d = Some (DictObj items')
    ∧ read_dict h' d = Some entries
    ∧ ∀ k l, (k, l) ∈ items' → h !! l = None.
Proof.
  unfold read_dict, file_extensions.
  destruct (h !! obj_file_extensions self) as [[|items]|]; try done.
  intros Hr. destruct (copy_items_spec h items entries Hr)
    as (h1 & items' & -> & Hsub & Hread & Hrefs).
  simpl.
  pose proof (alloc_subseteq h1 (DictObj items')) as Hsub'.
  pose proof (alloc_lookup h1 (DictObj items')) as Hl.
  destruct (alloc_fresh h1 (DictObj items')) as [Hfresh _].
  destruct (alloc h1 (DictObj items')) as [h2 d]. simpl in *.
  exists h2, d, items'. split_and!.
  - done.
  - by trans h1.
  - destruct (h !! d) eqn:E; [|done]. by rewrite (lookup_weaken _ _ _ _ E Hsub) in Hfresh.
  - done.
  - rewrite Hl. by apply (read_items_weaken h1).
  - done.
Qed.

Lemma dict_get_Some_elem {V} (d : list (list N * V)) k v :
  dict_get d k = Some v → (k, v) ∈ d.
Proof.
  induction d as [|[k' v'] d IH]; simpl; [done|].
  case_bool_decide.
  - subst. intros [= ->]. apply list_elem_of_here.
  - intros H'. by apply list_elem_of_further, IH.
Qed.

Lemma elem_of_dict_set {V} (d : list (list N * V)) k v k' v' :
  (k', v') ∈ dict_set d k v → v' = v ∨ (k', v') ∈ d.
Proof.
  induction d as [|[k0 v0] d IH]; simpl.
  - intros [[= -> ->]|[]%elem_of_nil]%elem_of_cons. by left.
  - case_bool_decide.
    + intros [[= -> ->]|Hin]%elem_of_cons; [by left|].
      right. by apply list_elem_of_further.
    + intros [[= -> ->]|Hin]%elem_of_cons; [right; apply list_elem_of_here|].
      destruct (IH Hin); [by left|right; by apply list_elem_of_further].
Qed.

Lemma elem_of_dict_del {V} (d d' : list (list N * V)) k k' v' :
  dict_del d k = Some d' → (k', v') ∈ d' → (k', v') ∈ d.
Proof.
  revert d'. induction d as [|[k0 v0] d IH]; intros d'; simpl; [done|].
  case_bool_decide.
  - intros [= <-] Hin. by apply list_elem_of_further.
  - destruct (dict_del d k) as [d1|]; [|done]. simpl. intros [= <-].
    intros [[= -> ->]|Hin]%elem_of_cons; [apply list_elem_of_here|].
    apply list_elem_of_further. by apply (IH d1).
Qed.

Lemma held_items_spec (h : gmap positive pyobj) held n d items :
  held_items h held n = Some (d, items) → d ∈ held ∧ h !! d = Some (DictObj items).
Proof.
  unfold held_items. destruct (held !! n) as [d'|] eqn:E; [|done]. simpl.
  destruct (h !! d') as [[|its]|] eqn:E'; try done. intros [= <- <-].
  split; [by apply list_elem_of_lookup_2 in E|done].
Qed.

Lemma held_list_spec (h : gmap positive pyobj) held n k l elems :
  held_list h held n k = Some (l, elems) →
  ∃ d items, d ∈ held ∧ h !! d = Some (DictObj items) ∧ (k, l) ∈ items
             ∧ h !! l = Some (ListObj elems).
Proof.
  unfold held_list. destruct (held_items h held n) as [[d items]|] eqn:E; [|done].
  apply held_items_spec in E as [Hd Hh]. simpl.
  destruct (dict_get items k) as [l'|] eqn:Hg; [|done]. simpl.
  destruct (h !! l') as [[els|]|] eqn:El; try done. intros [= <- <-].
  exists d, items. split_and!; try done. by apply dict_get_Some_elem.
Qed.

(** Rebinding one of the caller's mappings to items that reach nothing
    owned keeps the isolation. *)
Lemma isolated_write_dict own (h1 h : gmap positive pyobj) held d items' :
  isolated own h1 h held → d ∈ held →
  (∀ k l, (k, l) ∈ items' → l ∉ own) →
  isolated own h1 (<[d := DictObj items']> h) held.
Proof.
  intros [I1 I2] Hd Hitems. destruct (I2 d Hd) as [Hdown _]. split.
  - intros l Hl. destruct (I1 l Hl) as [Hs Heq]. split; [done|].
    rewrite <- Heq. apply lookup_insert_ne. by intros ->.
  - intros r Hr. destruct (I2 r Hr) as [Hrown (items & Hh & Hrefs)].
    split; [done|]. destruct (decide (d = r)) as [->|Hne].
    + exists items'. split; [apply lookup_insert_eq|done].
    + exists items. split; [by rewrite lookup_insert_ne|done].
Qed.

(** Writing a list object at a place that is not owned and holds no dict
    keeps the isolation. *)
Lemma isolated_write_list own (h1 h : gmap positive pyobj) held l elems :
  isolated own h1 h held → l ∉ own →
  (∀ items, h !! l ≠ Some (DictObj items)) →
  isolated own h1 (<[l := ListObj elems]> h) held.
Proof.
  intros [I1 I2] Hl Hnd. split.
  - intros l' Hl'. destruct (I1 l' Hl') as [Hs Heq]. split; [done|].
    rewrite <- Heq. apply lookup_insert_ne. by intros ->.
  - intros r Hr. destruct (I2 r Hr) as [Hrown (items & Hh & Hrefs)].
    split; [done|]. exists items. split; [|done].
    rewrite lookup_insert_ne; [done|]. intros ->. by apply (Hnd items).
Qed.

Lemma read_items_agree (h h' : gmap positive pyobj) items :
  (∀ k l, (k, l) ∈ items → h' !! l = h !! l) → read_items h' items = read_items h items.
Proof.
  induction items as [|[k l] items IH]; intros H; [done|].
  simpl. rewrite (H k l) by apply list_elem_of_here.
  rewrite IH; [done|]. intros k' l' Hin. apply (H k'). by apply list_elem_of_further.
Qed.

(** What [self] owns being as it was, [self] reads the same table. *)
Lemma read_dict_owned (h1 h : gmap positive pyobj) self held items0 :
  h1 !! obj_file_extensions self = Some (DictObj items0) →
  isolated (owned h1 self) h1 h held →
  read_dict h (obj_file_extensions self) = read_dict h1 (obj_file_extensions self).
Proof.
  intros E [I1 _]. unfold read_dict, owned in *. rewrite E in *.
  destruct (I1 (obj_file_extensions self)) as [_ ->];
    [by apply elem_of_union_l, elem_of_singleton|].
  rewrite E. apply read_items_agree. intros k l Hin.
  apply I1. apply elem_of_union_r, elem_of_list_to_set.
  by apply (list_elem_of_fmap_2 snd) in Hin.
Qed.

(** Every action of the caller keeps the isolation. *)
Lemma caller_step_isolated (h1 h : gmap positive pyobj) self held items0 entries a :
  h1 !! obj_file_extensions self = Some (DictObj items0) →
  read_dict h1 (obj_file_extensions self) = Some entries →
  isolated (owned h1 self) h1 h held →
  isolated (owned h1 self) h1 (caller_step self (h, held) a).1
    (caller_step self (h, held) a).2.
Proof.
  intros E Hread Hiso. pose proof Hiso as [I1 I2].
  assert (∀ l, h !! l = None → l ∉ owned h1 self) as Hfresh_own.
  { intros l Hn Hl. destruct (I1 l Hl) as [[o Ho] Heq]. congruence. }
  destruct a as [|n k v|n k n' k'|n k|n|n k x|n k i x|n k]; cbn [caller_step].
  - (* Access *)
    rewrite <- (read_dict_owned h1 h self held items0 E Hiso) in Hread.
    destruct (file_extensions_spec h self entries Hread)
      as (h' & d & items' & -> & Hsub & Hd & Hd' & _ & Hrefs).
    cbn [fst snd]. split.
    + intros l Hl. destruct (I1 l Hl) as [[o Ho] Heq]. split; [eauto|].
      rewrite Ho in Heq. rewrite Ho. by apply (lookup_weaken h).
    + intros r [Hr| ->%list_elem_of_singleton]%elem_of_app.
      * destruct (I2 r Hr) as [Hrown (items & Hh & Hitems)]. split; [done|].
        exists items. split; [by apply (lookup_weaken h)|done].
      * split; [by apply Hfresh_own|]. exists items'. split; [done|].
        intros k l Hin. apply Hfresh_own. by apply (Hrefs k).
  - (* d[k] = [...] *)
    destruct (held_items h held n) as [[d items]|] eqn:Hh; [|done].
    apply held_items_spec in Hh as [Hd Hitems].
    destruct (alloc_fresh h (ListObj v)) as [Hl Hh'].
    destruct (alloc h (ListObj v)) as [ha l]. cbn [fst snd] in *. subst ha.
    apply isolated_write_dict; [|done|].
    + apply isolated_write_list; [done|by apply Hfresh_own|]. intros its. by rewrite Hl.
    + intros k' l' [->|Hin]%elem_of_dict_set; [by apply Hfresh_own|].
      destruct (I2 d Hd) as [_ (its & Hits & Hrefs)].
      rewrite Hitems in Hits. injection Hits as <-. by apply (Hrefs k').
  - (* d[k] = d'[k'] *)
    destruct (held_items h held n) as [[d items]|] eqn:Hh; [|done].
    destruct (held_list h held n' k') as [[l elems]|] eqn:Hl; [|done].
    apply held_items_spec in Hh as [Hd Hitems].
    apply held_list_spec in Hl as (d' & items' & Hd' & Hitems' & Hin' & _).
    cbn [fst snd]. apply isolated_write_dict; [done|done|].
    intros k0 l0 [->|Hin]%elem_of_dict_set.
    + destruct (I2 d' Hd') as [_ (its & Hits & Hrefs)].
      rewrite Hitems' in Hits. injection Hits as <-. by apply (Hrefs k').
    + destruct (I2 d Hd) as [_ (its & Hits & Hrefs)].
      rewrite Hitems in Hits. injection Hits as <-. by apply (Hrefs k0).
  - (* del d[k] *)
    destruct (held_items h held n) as [[d items]|] eqn:Hh; [|done].
    apply held_items_spec in Hh as [Hd Hitems].
    destruct (dict_del items k) as [items'|] eqn:Hdel; [|done].
    cbn [fst snd]. apply isolated_write_dict; [done|done|].
    intros k0 l0 Hin. apply (elem_of_dict_del _ _ _ _ _ Hdel) in Hin.
    destruct (I2 d Hd) as [_ (its & Hits & Hrefs)].
    rewrite Hitems in Hits. injection Hits as <-. by apply (Hrefs k0).
  - (* d.clear() *)
    destruct (held_items h held n) as [[d items]|] eqn:Hh; [|done].
    apply held_items_spec in Hh as [Hd Hitems].
    cbn [fst snd]. apply isolated_write_dict; [done|done|].
    by intros ?? ?%elem_of_nil.
  - (* d[k].append(x) *)
    destruct (held_list h held n k) as [[l elems]|] eqn:Hl; [|done].
    apply held_list_spec in Hl as (d & items & Hd & Hitems & Hin & Hlist).
    cbn [fst snd]. apply isolated_write_list; [done| |intros its; by rewrite Hlist].
    destruct (I2 d Hd) as [_ (its & Hits & Hrefs)].
    rewrite Hitems in Hits. injection Hits as <-. by apply (Hrefs k).
  - (* d[k][i] = x *)
    destruct (held_list h held n k) as [[l elems]|] eqn:Hl; [|done].
    apply held_list_spec in Hl as (d & items & Hd & Hitems & Hin & Hlist).
    case_bool_decide; [|done].
    cbn [fst snd]. apply isolated_write_list; [done| |intros its; by rewrite Hlist].
    destruct (I2 d Hd) as [_ (its & Hits & Hrefs)].
    rewrite Hitems in Hits. injection Hits as <-. by apply (Hrefs k).
  - (* d[k].clear() *)
    destruct (held_list h held n k) as [[l elems]|] eqn:Hl; [|done].
    apply held_list_spec in Hl as (d & items & Hd & Hitems & Hin & Hlist).
    cbn [fst snd]. apply isolated_write_list; [done| |intros its; by rewrite Hlist].
    destruct (I2 d Hd) as [_ (its & Hits & Hrefs)].
    rewrite Hitems in Hits. injection Hits as <-. by apply (Hrefs k).
Qed.

Lemma caller_run_isolated (h1 : gmap positive pyobj) self items0 entries acts st :
  h1 !! obj_file_extensions self = Some (DictObj items0) →
  read_dict h1 (obj_file_extensions self) = Some entries →
  isolated (owned h1 self) h1 st.1 st.2 →
  isolated (owned h1 self) h1 (foldl (caller_step self) st acts).1
    (foldl (caller_step self) st acts).2.
Proof.
  intros E Hread. revert st. induction acts as [|a acts IH]; intros [h held] Hiso; [done|].
  simpl foldl. apply IH. by apply (caller_step_isolated h1 h self held items0 entries).
Qed.

Lemma new_FileOrganizer_eq (h : gmap positive pyobj) dir :
  new_FileOrganizer h dir
  = ((new_dict h FILE_EXTENSIONS).1,
     {| obj_directory := dir; obj_file_extensions := (new_dict h FILE_EXTENSIONS).2 |}).
Proof. unfold new_FileOrganizer. by destruct (new_dict h FILE_EXTENSIONS). Qed.

(** C9. Whatever the caller does with the mappings the [file_extensions]
    property hands out (asking for more of them, setting, aliasing and
    deleting keys, clearing a mapping, appending to its lists, overwriting
    or clearing them), the organizer reads the same table afterwards as
    when it was made: [categorize_file] and [create_category_folders] called
    on it are what they are on a fresh organizer.  The property itself
    returns a new dict object, unknown to the store before the call, whose
    content is the built-in table. *)
Theorem file_extensions_isolated (h : gmap positive pyobj) (dir : path)
    (acts : list action) :
  let h1 := (new_FileOrganizer h dir).1 in
  let self := (new_FileOrganizer h dir).2 in
  let h2 := (caller_run self h1 acts).1 in
  load h1 self = Some (__init__ dir)
  ∧ load h2 self = Some (__init__ dir)
  ∧ (∀ f, categorize_file_in h2 self f = Some (categorize_file (__init__ dir) f))
  ∧ create_category_folders_in h2 self = Some (create_category_folders (__init__ dir))
  ∧ ∃ h3 d,
      file_extensions h2 self = Some (h3, d)
      ∧ h2 !! d = None
      ∧ read_dict h3 d = Some FILE_EXTENSIONS
      ∧ load h3 self = Some (__init__ dir).
Proof.
  rewrite new_FileOrganizer_eq. cbn [fst snd].
  destruct (new_dict_spec h FILE_EXTENSIONS) as (_ & _ & Hread & items0 & Hd0 & Hrefs).
  set (h1 := (new_dict h FILE_EXTENSIONS).1) in *.
  set (d0 := (new_dict h FILE_EXTENSIONS).2) in *.
  set (self := {| obj_directory := dir; obj_file_extensions := d0 |}).
  set (h2 := (caller_run self h1 acts).1).
  assert (isolated (owned h1 self) h1 h1 []) as Hiso0.
  { split; [|by intros ? ?%elem_of_nil].
    intros l. unfold owned. cbn [obj_file_extensions self]. rewrite Hd0.
    intros [->%elem_of_singleton|Hl%elem_of_list_to_set]%elem_of_union; [eauto|].
    apply list_elem_of_fmap in Hl as ([k l'] & -> & Hin).
    destruct (Hrefs _ _ Hin) as (_ & ? & _). done. }
  pose proof (caller_run_isolated h1 self items0 FILE_EXTENSIONS acts (h1, [])
                Hd0 Hread Hiso0) as Hiso.
  fold (caller_run self h1 acts) in Hiso. fold h2 in Hiso.
  pose proof (read_dict_owned h1 h2 self _ items0 Hd0 Hiso) as Hread2.
  cbn [obj_file_extensions self] in Hread2. rewrite Hread in Hread2.
  assert (∀ h', read_dict h' d0 = Some FILE_EXTENSIONS → load h' self = Some (__init__ dir))
    as Hload.
  { intros h' Hr. unfold load. cbn [obj_file_extensions obj_directory self].
    by rewrite Hr. }
  split_and!.
  - by apply Hload.
  - by apply Hload.
  - intros f. unfold categorize_file_in. by rewrite (Hload h2 Hread2).
  - unfold create_category_folders_in. by rewrite (Hload h2 Hread2).
  - destruct (file_extensions_spec h2 self FILE_EXTENSIONS Hread2)
      as (h3 & d & items' & Hfe & Hsub & Hd & Hd' & Hread3 & Hfresh).
    exists h3, d. split_and!; [done..|].
    apply Hload.
    pose proof (caller_step_isolated h1 h2 self _ items0 FILE_EXTENSIONS Access
                  Hd0 Hread Hiso) as Hiso3.
    cbn [caller_step] in Hiso3. rewrite Hfe in Hiso3. cbn [fst snd] in Hiso3.
    pose proof (read_dict_owned h1 h3 self _ items0 Hd0 Hiso3) as Hr3.
    cbn [obj_file_extensions self] in Hr3. by rewrite Hread in Hr3.
Qed.

(** A caller that takes the mapping twice, appends to a list of the first
    copy, adds a key to it, and clears the second: both copies change, the
    organizer keeps classifying as before. *)
Example caller_changes_its_copies :
  let '(h1, self) := new_FileOrganizer ∅ work in
  let '(h2, held) :=
    caller_run self h1
      [ Access; ListAppend 0 (str "Images") (str ".xyz");
        SetItem 0 (str "NewCategory") [str ".new"]; Access; Clear 1 ] in
  (held ≫= λ d, default [] (read_dict h2 d)).*1
    = str <$> ["Images"; "Documents"; "Videos"; "Audio"; "Archives"; "Code";
               "Executables"; "NewCategory"]%string
  ∧ (d ← held !! 0%nat; t ← read_dict h2 d; l ← dict_get t (str "Images"); Some (last l))
    = Some (Some (str ".xyz"))
  ∧ categorize_file_in h2 self [str "a.xyz"] = Some (str "Other")
  ∧ categorize_file_in h2 self [str "a.new"] = Some (str "Other")
  ∧ load h2 self = Some (__init__ work).
Proof. vm_compute. split_and!; reflexivity. Qed.

(** * Further properties of the code *)

(** ** Folder provisioning in any state *)

Lemma mkdir_effect fs (d : path) c exist_ok :
  ∃ o fs',
    mkdir (d // c) exist_ok fs = (o, fs', [CallMkdir (d // c)])
    ∧ ((o = Return () ∧ fs' = ensure_dir fs (d // c)) ∨ (∃ e, o = Raise e ∧ fs' = fs)).
Proof.
  unfold mkdir, path_mkdir, os_mkdir, ensure_dir, exists_at, is_dir_at.
  rewrite parent_joinpath.
  destruct (d // c) as [|x q] eqn:Hp; [by apply joinpath_not_nil in Hp|].
  rewrite <- Hp in *.
  destruct (node_at fs d) as [[]|], (node_at fs (d // c)) as [[]|], exist_ok;
    simpl; eauto 8.
Qed.


(** The loop stops at the first [mkdir] that raises: the filesystem is then
    provisioned for the categories before it, and for all when it returns. *)
Lemma create_folders_loop_prefix self cats fs :
  ∃ o reached tr,
    create_folders_loop self cats fs = (o, provisioned self reached fs, tr)
    ∧ reached `prefix_of` cats
    ∧ (o = Return () → reached = cats)
    ∧ ((∃ e, o = Raise e) → reached ≠ cats)
    ∧ forallb is_provisioning tr = true.
Proof.
  revert fs. induction cats as [|c cats IH]; intros fs.
  { exists (Return ()), [], []. split_and!; try done. by intros [? ?]. }
  simpl create_folders_loop.
  destruct (mkdir_effect fs (directory self) c true)
    as (o & fs' & Hrun & [[-> ->]|(e & -> & ->)]).
  - rewrite (bind_return _ _ _ _ _ _ Hrun).
    rewrite (bind_return (print _) _ _ () (ensure_dir fs (directory self // c))
               [Print (CreatedFolder c)]) by done.
    destruct (IH (ensure_dir fs (directory self // c)))
      as (o & reached & tr & -> & Hpre & Hret & Hraise & Htr).
    exists o, (c :: reached), ([CallMkdir (directory self // c)]
                               ++ [Print (CreatedFolder c)] ++ tr).
    split_and!.
    + done.
    + by apply prefix_cons.
    + intros Ho. by rewrite (Hret Ho).
    + intros He [= Heq]. by apply Hraise.
    + simpl. done.
  - rewrite (bind_raise _ _ _ _ _ _ Hrun).
    exists (Raise e), [], [CallMkdir (directory self // c)].
    split_and!; try done. apply prefix_nil.
Qed.

Lemma elem_of_prefix {A} (l1 l2 : list A) x : l1 `prefix_of` l2 → x ∈ l1 → x ∈ l2.
Proof. intros [k ->] Hx. apply elem_of_app. by left. Qed.

(** X3.  Whatever state it is called in, and whether it returns or raises,
    [create_category_folders] does nothing but make directories named after
    categories, in order, up to the first [mkdir] that raises: what was
    there before stays as it was, what is new is a directory
    [directory / category], and no call other than [mkdir] is made. *)
Theorem create_category_folders_only_adds_folders (dir : path) (fs : filesystem) :
  let self := __init__ dir in
  ∃ o reached tr,
    create_category_folders self fs = (o, provisioned self reached fs, tr)
    ∧ reached `prefix_of` categories self
    ∧ (o = Return () → reached = categories self)
    ∧ ((∃ e, o = Raise e) → reached ≠ categories self)
    ∧ forallb is_provisioning tr = true
    ∧ (∀ (q : path) n,
         node_at fs q = Some n → node_at (provisioned self reached fs) q = Some n)
    ∧ (∀ (q : path) n,
         node_at (provisioned self reached fs) q = Some n →
         node_at fs q = Some n
         ∨ (n = Dir ∧ node_at fs q = None ∧ ∃ c, c ∈ categories self ∧ q = dir // c))
    ∧ protections (provisioned self reached fs) = protections fs.
Proof.
  intros self. unfold create_category_folders.
  destruct (create_folders_loop_prefix self (categories self) fs)
    as (o & reached & tr & Hrun & Hpre & Hret & Hraise & Htr).
  exists o, reached, tr. split_and!; try done.
  - intros q n. apply provisioned_keeps.
  - intros q n Hq. destruct (provisioned_new self reached fs q n Hq)
      as [?|(-> & ? & c & Hc & ->)]; [by left|].
    right. split_and!; try done. exists c. split; [|done].
    by apply (elem_of_prefix reached).
  - apply protections_provisioned.
Qed.

(** ** The exit status of [main] *)











(** ** The two entry points *)



(** ** What a run reports and what it did *)




























(** ** Which files a live run moves *)

Lemma unlink_protected fs (p : path) pr :
  protections fs !! p = Some pr → ∃ e, os_unlink fs p = inl e.
Proof.
  intros H. unfold os_unlink. destruct (node_at fs p) as [[]|]; eauto.
  rewrite H. eauto.
Qed.







Lemma provisioned_frame self cats fs (q : path) :
  (∀ c, c ∈ cats → q ≠ directory self // c) →
  node_at (provisioned self cats fs) q = node_at fs q.
Proof.
  intros Hq. destruct (node_at fs q) as [n|] eqn:E.
  { by apply provisioned_keeps. }
  destruct (node_at (provisioned self cats fs) q) as [n|] eqn:E'; [|done].
  apply provisioned_new in E' as [E'|(_ & _ & c & Hc & ->)]; [congruence|].
  by destruct (Hq c Hc).
Qed.







(** ** What no run touches *)

Lemma check_target_not_dir fs (rd : path) :
  check_target fs rd = None → node_at fs rd ≠ Some Dir.
Proof.
  unfold check_target. destruct (node_at fs (parent rd)) as [[]|]; [done| |done].
  by destruct (node_at fs rd) as [[]|].
Qed.

(** [shutil.move] writes a regular file at a place that held no directory,
    and removes nothing but its source, or it changes nothing. *)
Lemma shutil_move_writes fs (src dst : path) fs' oe :
  shutil_move fs src dst = (fs', oe) →
  fs' = fs
  ∨ ∃ data, node_at fs src = Some (File data) ∧ src ≠ []
      ∧ landing fs src dst ≠ []
      ∧ node_at fs (landing fs src dst) ≠ Some Dir
      ∧ (fs' = set_nodes fs (<[landing fs src dst := File data]> (nodes fs))
         ∨ fs' = set_nodes fs (<[landing fs src dst := File data]>
                                 (delete src (nodes fs)))).
Proof.
  unfold shutil_move. fold (landing fs src dst). set (rd := landing fs src dst).
  intros H. destruct (is_dir_at fs dst && exists_at fs rd).
  { injection H as <- <-. by left. }
  unfold os_rename, copy2 in H.
  destruct (node_at fs src) as [[data|]|] eqn:Hsrc;
    [|injection H as <- <-; by left|injection H as <- <-; by left].
  assert (src ≠ []) as Hne by (by intros ->).
  destruct (check_target fs rd) eqn:Hct.
  { destruct (protections fs !! src) as [[]|]; injection H as <- <-; by left. }
  pose proof (check_target_not_nil _ _ Hct) as Hrd.
  pose proof (check_target_not_dir _ _ Hct) as Hnd.
  destruct (protections fs !! src) as [[]|] eqn:Hprot.
  - destruct (os_unlink (set_nodes fs (<[rd:=File data]> (nodes fs))) src) eqn:Hun.
    + injection H as <- <-. right. exists data. eauto 8.
    + destruct (unlink_protected (set_nodes fs (<[rd:=File data]> (nodes fs)))
                  src ReadOnly Hprot) as [e He]. congruence.
  - injection H as <- <-. by left.
  - injection H as <- <-. right. exists data. eauto 8.
Qed.

Lemma shutil_move_keeps_dirs fs (src dst : path) fs' oe (q : path) :
  shutil_move fs src dst = (fs', oe) →
  node_at fs q = Some Dir → node_at fs' q = Some Dir.
Proof.
  intros H Hq. apply shutil_move_writes in H as [->|(data & Hsrc & Hne & Hrd & Hnd & H)];
    [done|].
  assert (landing fs src dst ≠ q) as H1 by (intros <-; done).
  assert (src ≠ q) as H2 by (intros <-; congruence).
  destruct q as [|x q']; [by destruct H as [-> | ->]|].
  destruct H as [-> | ->]; rewrite node_at_set_nodes.
  - by rewrite lookup_insert_ne.
  - by rewrite lookup_insert_ne, lookup_delete_ne.
Qed.

Lemma move_all_keeps_dirs self files fs (q : path) :
  node_at fs q = Some Dir → node_at (move_all self files fs).2 q = Some Dir.
Proof.
  revert fs. induction files as [|f files IH]; intros fs Hq; [done|].
  rewrite move_all_cons. cbn [snd]. apply IH.
  destruct (shutil_move fs f (destination self f)) as [fs1 oe] eqn:Hrun.
  by apply (shutil_move_keeps_dirs fs f (destination self f) fs1 oe).
Qed.

(** Where a run of [organize_files] can end: some of the category folders
    provisioned, in order, and then some of the files handed to the move. *)
Lemma organize_files_final_filesystem dir dry_run fs :
  let self := __init__ dir in
  ∃ reached files,
    reached `prefix_of` categories self
    ∧ files ⊆ files_in fs dir
    ∧ (organize_files self dry_run fs).1.2
      = (move_all self files (provisioned self reached fs)).2.
Proof.
  intros self.
  assert (∃ reached files,
            reached `prefix_of` categories self ∧ files ⊆ files_in fs dir
            ∧ fs = (move_all self files (provisioned self reached fs)).2) as Hsame.
  { exists [], []. split_and!; [apply prefix_nil|set_solver|done]. }
  destruct (node_at fs dir) as [[data|]|] eqn:Hdir.
  - by rewrite (organize_files_not_a_directory self dry_run fs data).
  - assert (is_dir_at fs (directory self) = true) as Hd
      by (unfold is_dir_at; change (directory self) with dir; by rewrite Hdir).
    rewrite (organize_files_directory self) by done.
    change (directory self) with dir.
    destruct (files_in fs dir) as [|f rest] eqn:Hfiles; [done|].
    rewrite <- Hfiles in *. rewrite bind_run. destruct dry_run; cbn [negb].
    + unfold mret at 1. unfold M_ret. cbv beta iota.
      rewrite organize_loop_dry_run by (unfold self; by rewrite empty_lists_keys).
      done.
    + destruct (create_folders_loop_prefix self (categories self) fs)
        as (o & reached & tr & Hrun & Hpre & _).
      fold (create_category_folders self) in Hrun. rewrite Hrun.
      destruct o as [[]|e].
      * rewrite organize_loop_live by (unfold self; by rewrite empty_lists_keys).
        cbn [fst snd]. exists reached, (files_in fs dir). done.
      * cbn [fst snd]. exists reached, []. split_and!; [done|set_solver|done].
  - by rewrite (organize_files_missing self).
Qed.

Lemma touched_below self g (q : path) :
  is_child (directory self) g → q ∈ touched self g → directory self `prefix_of` q.
Proof.
  intros Hg Hq. unfold touched, destination in Hq.
  rewrite (is_child_eq _ _ Hg) in Hq at 1. unfold joinpath in Hq.
  apply elem_of_cons in Hq as [->|Hq]; [by eexists|].
  apply elem_of_cons in Hq as [->|Hq]; [rewrite <- app_assoc; by eexists|].
  apply list_elem_of_singleton in Hq as ->. rewrite <- !app_assoc. by eexists.
Qed.

(** X9.  Whatever the state it starts from, dry or live, and whether it
    returns or raises, [organize_files] never removes or replaces a directory,
    changes nothing outside the directory it organizes, and leaves every
    entry of that directory which is no regular file directly inside it, no
    category folder, and no place of arrival of such a file, as it was. *)
Theorem organize_files_keeps_what_it_does_not_move (dir : path) (dry_run : bool)
    (fs : filesystem) :
  let self := __init__ dir in
  let fs' := (organize_files self dry_run fs).1.2 in
  (∀ q : path, node_at fs q = Some Dir → node_at fs' q = Some Dir)
  ∧ (∀ q : path, ¬ dir `prefix_of` q → node_at fs' q = node_at fs q)
  ∧ (∀ q : path,
       (∀ c, c ∈ categories self → q ≠ dir // c) →
       (∀ f, f ∈ files_in fs dir → q ∉ touched self f) →
       node_at fs' q = node_at fs q)
  ∧ protections fs' = protections fs
  ∧ (dry_run = true → fs' = fs).
Proof.
  intros self fs'. subst fs'.
  destruct (organize_files_final_filesystem dir dry_run fs)
    as (reached & files & Hpre & Hsub & Hfs).
  fold self in Hpre, Hfs.
  assert (∀ q : path,
            (∀ c, c ∈ categories self → q ≠ dir // c) →
            (∀ f, f ∈ files_in fs dir → q ∉ touched self f) →
            node_at (organize_files self dry_run fs).1.2 q = node_at fs q) as Hframe.
  { intros q Hc Hf. rewrite Hfs, move_all_frame by (intros g Hg; by apply Hf, Hsub).
    apply provisioned_frame. intros c Hin. by apply Hc, (elem_of_prefix reached). }
  split_and!.
  - intros q Hq. rewrite Hfs. by apply move_all_keeps_dirs, provisioned_keeps.
  - intros q Hq. apply Hframe.
    + intros c _ ->. apply Hq. by eexists.
    + intros f Hf Hin. apply Hq. apply (touched_below self f); [|done].
      by apply elem_of_files_in in Hf as [? _].
  - exact Hframe.
  - by rewrite Hfs, move_all_protections, protections_provisioned.
  - intros ->. destruct (node_at fs dir) as [[data|]|] eqn:Hdir.
    + by rewrite (organize_files_not_a_directory self true fs data).
    + rewrite (organize_files_dry self); [done| |unfold self; by rewrite empty_lists_keys].
      unfold is_dir_at. change (directory self) with dir. by rewrite Hdir.
    + by rewrite (organize_files_missing self).
Qed.

(** ** A second run *)















(** ** A category name taken by a regular file *)





(** ** What [main] reports *)




(** ** Files of one run do not collide *)



